(** * L3 agent with port forwarding: router-update reconciliation

    A shallow embedding of [networking_portforwarding/agent/l3/agent.py]
    ([L3NATAgent]): the start-up retry loop, router creation and removal,
    the compatibility check, the worker loop, the periodic full sync and
    the port-forward reconciliation step.

    The agent is a Python object mutated in place and talking to
    collaborators that live outside the file (the controller RPC, the
    router runtime classes, the iptables manager, the namespace manager,
    and the update queue).  The embedding threads the agent through a
    state-and-exception monad; every collaborator call is appended to a
    trace and may, as the environment decides, raise.  Collaborators do
    not write the agent's own fields. *)

From stdpp Require Import gmap strings list fin_maps pretty.

Local Open Scope string_scope.
Local Open Scope Z_scope.

(** ** Data model *)

(** An entry of [port['fixed_ips']]; [.get('ip_address')] yields [None]
    when the key is missing. *)
Record FixedIp := { ip_address : option string }.

(** A port document.  [fixed_ips = None] stands for a document without
    the ['fixed_ips'] key ([.get] returns Python's [None]). *)
Record Port := {
  network_id : string;
  fixed_ips : option (list FixedIp);
}.

(** One element of [router['portforwardings']].  The server sends the
    four columns of the rule table; the key ['outside_addr'] is added by
    the agent: [None] is "key not set", [Some v] is "set to [v]", where
    [v] itself may be Python's [None]. *)
Record PortFwd := {
  protocol : string;
  outside_addr : option (option string);
  outside_port : Z;
  inside_addr : string;
  inside_port : Z;
}.

(** The router document (a dict).  Optional keys are options; for
    ['distributed'], ['ha'] and ['enable_snat'] an absent key and the
    value [None] are both [None] except where the source tests
    ['distributed' not in ri.router], which only turns [None] into
    [Some false].  [external_gateway_info] is Python's [None] or a dict,
    given by what its ['network_id'] lookup yields.  [portforwardings =
    None] is a document without that key. *)
Record Router := {
  id : string;
  distributed : option bool;
  ha : option bool;
  external_gateway_info : option (option string);
  gw_port : option Port;
  interfaces : list Port;
  floatingips : list string;
  snat_router_interfaces : option (list Port);
  enable_snat : option bool;
  portforwardings : option (list PortFwd);
}.

#[global] Instance FixedIp_eq_dec : EqDecision FixedIp.
Proof. solve_decision. Defined.
#[global] Instance Port_eq_dec : EqDecision Port.
Proof. solve_decision. Defined.
#[global] Instance PortFwd_eq_dec : EqDecision PortFwd.
Proof. solve_decision. Defined.
#[global] Instance Router_eq_dec : EqDecision Router.
Proof. solve_decision. Defined.

(** The three runtime classes [_create_router] chooses from. *)
Inductive Variant := DvrRouter | HaRouter | LegacyRouter.

(** The router runtime object [ri], as far as the agent reads and writes
    it. *)
Record RouterInfo := {
  ri_router_id : string;
  ri_router : Router;
  ri_variant : Variant;
  ri_portforwardings : list PortFwd;
  ri_ex_gw_port : option Port;
  ri_snat_ports : list Port;
  ri_enable_snat : option bool;
}.

(** [queue.PRIORITY_RPC], [queue.PRIORITY_SYNC_ROUTERS_TASK]. *)
Inductive Priority := PRIORITY_RPC | PRIORITY_SYNC_ROUTERS_TASK.

(** [queue.DELETE_ROUTER]; an update without action carries [None]. *)
Inductive Action := DELETE_ROUTER.

Record RouterUpdate := {
  u_id : string;
  u_priority : Priority;
  u_action : option Action;
  u_router : option Router;
  u_timestamp : Z;
}.

#[global] Instance Priority_eq_dec : EqDecision Priority.
Proof. solve_decision. Defined.
#[global] Instance Action_eq_dec : EqDecision Action.
Proof. solve_decision. Defined.
#[global] Instance RouterUpdate_eq_dec : EqDecision RouterUpdate.
Proof. solve_decision. Defined.

(** The options of [self.conf] the modelled methods read. *)
Record Conf := {
  use_namespaces : bool;
  router_id : string;
  handle_internal_only_routers : bool;
  external_network_bridge : string;
  gateway_external_network_id : string;
}.

(** The lifecycle events of [adv_svc.AdvancedService]. *)
Inductive Lifecycle :=
  | before_router_added | after_router_added
  | before_router_updated | after_router_updated
  | before_router_removed | after_router_removed.

(** Calls the agent makes on its collaborators, in the order made. *)
Inductive Call :=
  | get_service_plugin_list
  | get_routers (router_ids : option (list string))
  | get_external_network_id
  | device_exists (name : string)
  | utcnow
  | process_services_sync
  | ns_enter
  | ns_exit (failed : bool)
  | keep_router (rid : string)
  | queue_add (u : RouterUpdate)
  | fetched_and_processed (rid : string) (timestamp : Z)
  | notify (ev : Lifecycle) (rid : string)
  | radvd_monitor (rid : string)
  | ri_create (rid : string)
  | ri_delete (rid : string)
  | ri_initialize (rid : string)
  | ri_terminate (rid : string)
  | process_router_add (rid : string)
  | get_fip_ns (net : string)
  | scan_fip_ports (rid : string)
  | process_internal_ports (rid : string)
  | process_external (rid : string)
  | routes_updated (rid : string)
  | enable_keepalived (rid : string)
  | add_rule (rid chain rule tag : string)
  | remove_rule (rid chain rule : string)
  | iptables_apply (rid : string).

#[global] Instance Lifecycle_eq_dec : EqDecision Lifecycle.
Proof. solve_decision. Defined.
#[global] Instance Call_eq_dec : EqDecision Call.
Proof. solve_decision. Defined.

(** What a collaborator may raise: the transport errors of
    [oslo_messaging] and any other [Exception]. *)
Inductive Fault :=
  | MessagingTimeout
  | RemoteError (exc_type : string)
  | MessagingException
  | OtherError (msg : string).

(** Exceptions seen by the agent: a collaborator's fault, the signals
    the agent raises itself, and the built-in errors of the dict and
    list accesses it performs. *)
Inductive Exn :=
  | Collab (f : Fault)
  | DvrHaRouterNotSupported (rid : string)
  | RouterNotCompatibleWithAgent (rid : string)
  | AbortSyncRouters
  | KeyError (key : string)
  | IndexError
  | TypeError
  | PlainException (msg : string).

(** [except oslo_messaging.MessagingException]: the timeout and the
    remote error are subclasses of it. *)
Definition is_MessagingException (e : Exn) : bool :=
  match e with
  | Collab MessagingTimeout | Collab (RemoteError _)
  | Collab MessagingException => true
  | _ => false
  end.

(** The agent object. *)
Record Agent := {
  conf : Conf;
  router_info : gmap string RouterInfo;
  fullsync : bool;
  target_ex_net_id : option string;
  neutron_service_plugins : option (list string);
  trace : list Call;
}.

(** The environment answers every collaborator call from the history of
    calls made so far. *)
Record Env := {
  env_raises : list Call → Call → option Fault;
  env_routers : list Call → option (list string) → list Router;
  env_external_net : list Call → string;
  env_device_exists : list Call → string → bool;
  env_now : list Call → Z;
  env_plugins : list Call → list string;
  env_ha_port : list Call → string → bool;
}.

(** ** The state-and-exception monad *)

Inductive Outcome (A : Type) :=
  | Ok (a : A)
  | Raise (e : Exn).
Arguments Ok {A} a.
Arguments Raise {A} e.

Definition M (A : Type) : Type := Agent → Outcome A * Agent.

Definition ret {A} (a : A) : M A := λ s, (Ok a, s).
Definition raise {A} (e : Exn) : M A := λ s, (Raise e, s).
Definition bind {A B} (m : M A) (k : A → M B) : M B :=
  λ s, match m s with
       | (Ok a, s') => k a s'
       | (Raise e, s') => (Raise e, s')
       end.

Declare Scope agent_scope.
Delimit Scope agent_scope with agent.
Notation "'let*' x ':=' m 'in' k" := (bind m (λ x, k))
  (at level 10, x name, m at level 100, k at level 200) : agent_scope.
Notation "m ;;; k" := (bind m (λ _, k))
  (at level 100, right associativity) : agent_scope.
Local Open Scope agent_scope.

(** [try: m except <classes matched by handles>: h]. *)
Definition try_except {A} (m : M A) (handles : Exn → bool)
    (h : Exn → M A) : M A :=
  λ s, match m s with
       | (Ok a, s') => (Ok a, s')
       | (Raise e, s') => if handles e then h e s' else (Raise e, s')
       end.

Definition get_agent : M Agent := λ s, (Ok s, s).
Definition when (b : bool) (m : M unit) : M unit := if b then m else ret tt.

(** [for x in l: body x]; an exception leaves the loop. *)
Fixpoint for_each {A} (l : list A) (body : A → M unit) : M unit :=
  match l with
  | [] => ret tt
  | x :: l' => body x ;;; for_each l' body
  end.

(** Field updates of the agent. *)
Definition with_fullsync (b : bool) (s : Agent) : Agent :=
  {| conf := conf s; router_info := router_info s; fullsync := b;
     target_ex_net_id := target_ex_net_id s;
     neutron_service_plugins := neutron_service_plugins s;
     trace := trace s |}.
Definition with_router_info (m : gmap string RouterInfo) (s : Agent)
    : Agent :=
  {| conf := conf s; router_info := m; fullsync := fullsync s;
     target_ex_net_id := target_ex_net_id s;
     neutron_service_plugins := neutron_service_plugins s;
     trace := trace s |}.
Definition with_target_ex_net_id (v : option string) (s : Agent) : Agent :=
  {| conf := conf s; router_info := router_info s; fullsync := fullsync s;
     target_ex_net_id := v;
     neutron_service_plugins := neutron_service_plugins s;
     trace := trace s |}.
Definition with_neutron_service_plugins (v : option (list string))
    (s : Agent) : Agent :=
  {| conf := conf s; router_info := router_info s; fullsync := fullsync s;
     target_ex_net_id := target_ex_net_id s;
     neutron_service_plugins := v;
     trace := trace s |}.
(** The agent after the collaborator calls [cs] were made. *)
Definition add_calls (cs : list Call) (s : Agent) : Agent :=
  {| conf := conf s; router_info := router_info s; fullsync := fullsync s;
     target_ex_net_id := target_ex_net_id s;
     neutron_service_plugins := neutron_service_plugins s;
     trace := trace s ++ cs |}.

Definition set_fullsync (b : bool) : M unit :=
  λ s, (Ok tt, with_fullsync b s).
Definition set_router_info (m : gmap string RouterInfo) : M unit :=
  λ s, (Ok tt, with_router_info m s).
Definition set_target_ex_net_id (v : option string) : M unit :=
  λ s, (Ok tt, with_target_ex_net_id v s).

(** Python truthiness of a string and of an optional string. *)
Definition truthy (s : string) : bool := negb (String.eqb s "").
Definition truthy_opt (o : option string) : bool :=
  match o with Some s => truthy s | None => false end.
Definition is_true_opt (o : option bool) : bool :=
  match o with Some b => b | None => false end.

Section WithEnv.
Variable env : Env.

(** A collaborator call: recorded, then it raises or returns. *)
Definition call (c : Call) : M unit :=
  λ s, match env_raises env (trace s) c with
       | Some f => (Raise (Collab f), add_calls [c] s)
       | None => (Ok tt, add_calls [c] s)
       end.

(** A collaborator call that returns a value read from the environment
    at the history before the call. *)
Definition call_ret {A} (c : Call) (answer : list Call → A) : M A :=
  let* s := get_agent in
  call c ;;;
  ret (answer (trace s)).

(** Work on the runtime object registered under [rid]: the object is
    shared between the registry and the local variable [ri], so the
    methods below read and write it through the registry, under the
    key it was registered with. *)
Definition get_ri (rid : string) : M RouterInfo :=
  let* s := get_agent in
  match router_info s !! rid with
  | Some ri => ret ri
  | None => raise (KeyError rid)
  end.
Definition put_ri (rid : string) (ri : RouterInfo) : M unit :=
  let* s := get_agent in
  set_router_info (<[rid := ri]> (router_info s)).

(** *** Port forwarding *)

(** ["%s" % v] for an optional string. *)
Definition str_opt (o : option string) : string :=
  match o with Some s => s | None => "None" end.

(** The ["..." % portfwd] of [_update_portforwardings], for an entry
    whose ['outside_addr'] is [a]. *)
Definition rule_text (a : option string) (p : PortFwd) : string :=
  "-p " +:+ protocol p
  +:+ " -d " +:+ str_opt a
  +:+ " --dport " +:+ pretty (outside_port p)
  +:+ " -j DNAT --to " +:+ inside_addr p
  +:+ ":" +:+ pretty (inside_port p).

(** A missing ['outside_addr'] key is a [KeyError]. *)
Definition rule_in (p : PortFwd) : Outcome string :=
  match outside_addr p with
  | None => Raise (KeyError "outside_addr")
  | Some a => Ok (rule_text a p)
  end.

Inductive Operation := create | delete_op | other_op.

Definition _update_portforwardings (rid : string) (operation : Operation)
    (portfwd : PortFwd) : M unit :=
  let chain_in := "PREROUTING" in
  match rule_in portfwd with
  | Raise e => raise e
  | Ok r =>
      match operation with
      | create => call (add_rule rid chain_in r "portforwarding")
      | delete_op => call (remove_rule rid chain_in r)
      | other_op => raise (PlainException "should never be here")
      end
  end.

(** [ex_gw_port.get('fixed_ips')[0].get('ip_address')]. *)
Definition first_fixed_ip (ex_gw_port : Port) : Outcome (option string) :=
  match fixed_ips ex_gw_port with
  | None => Raise TypeError
  | Some [] => Raise IndexError
  | Some (f :: _) => Ok (ip_address f)
  end.

Definition set_outside_addr (a : option string) (p : PortFwd) : PortFwd :=
  {| protocol := protocol p; outside_addr := Some a;
     outside_port := outside_port p; inside_addr := inside_addr p;
     inside_port := inside_port p |}.

(** The loop [for new_portfwd in new_portfwds: new_portfwd['outside_addr']
    = ...]: the address is looked up once per entry, so an empty list
    never touches the gateway port. *)
Fixpoint populate (ex_gw_port : Port) (l : list PortFwd)
    : Outcome (list PortFwd) :=
  match l with
  | [] => Ok []
  | p :: l' =>
      match first_fixed_ip ex_gw_port with
      | Raise e => Raise e
      | Ok a =>
          match populate ex_gw_port l' with
          | Raise e => Raise e
          | Ok l'' => Ok (set_outside_addr a p :: l'')
          end
      end
  end.

(** Modelled from the spec: removal of one occurrence of a record from
    a collection, by structural equality; the step of the multiset
    difference below. *)
Fixpoint remove_one (x : PortFwd) (l : list PortFwd) : list PortFwd :=
  match l with
  | [] => []
  | y :: l' => if decide (x = y) then l' else y :: remove_one x l'
  end.

(** Modelled from the spec: the difference [a - b] of two collections
    read as multisets, one occurrence removed per occurrence. *)
Definition multiset_diff (a b : list PortFwd) : list PortFwd :=
  foldl (λ acc x, remove_one x acc) a b.

(** Modelled from the spec: [common_utils.diff_list_of_dict], which is
    not part of this repository's sources.  "Treat both collections as
    unordered multisets of structurally-equal records; compute adds =
    new - old, removes = old - new by full structural equality (not just
    key fields)". *)
Definition diff_list_of_dict (old_list new_list : list PortFwd)
    : list PortFwd * list PortFwd :=
  (multiset_diff new_list old_list, multiset_diff old_list new_list).

Definition set_ri_router (r : Router) (ri : RouterInfo) : RouterInfo :=
  {| ri_router_id := ri_router_id ri; ri_router := r;
     ri_variant := ri_variant ri;
     ri_portforwardings := ri_portforwardings ri;
     ri_ex_gw_port := ri_ex_gw_port ri;
     ri_snat_ports := ri_snat_ports ri;
     ri_enable_snat := ri_enable_snat ri |}.
Definition set_ri_portforwardings (l : list PortFwd) (ri : RouterInfo)
    : RouterInfo :=
  {| ri_router_id := ri_router_id ri; ri_router := ri_router ri;
     ri_variant := ri_variant ri;
     ri_portforwardings := l;
     ri_ex_gw_port := ri_ex_gw_port ri;
     ri_snat_ports := ri_snat_ports ri;
     ri_enable_snat := ri_enable_snat ri |}.
Definition set_portforwardings (l : option (list PortFwd)) (r : Router)
    : Router :=
  {| id := id r; distributed := distributed r; ha := ha r;
     external_gateway_info := external_gateway_info r;
     gw_port := gw_port r; interfaces := interfaces r;
     floatingips := floatingips r;
     snat_router_interfaces := snat_router_interfaces r;
     enable_snat := enable_snat r; portforwardings := l |}.

(** [process_router_portforwardings(ri, ex_gw_port)], with [ri] the
    object registered under [rid].  The entries of
    [ri.router['portforwardings']] are mutated in place, so the router
    document sees the populated addresses too. *)
Definition process_router_portforwardings (rid : string)
    (ex_gw_port : option Port) : M unit :=
  let* ri := get_ri rid in
  match portforwardings (ri_router ri) with
  | None => ret tt
  | Some pfs =>
      match ex_gw_port with
      | Some gw =>
          match populate gw pfs with
          | Raise e => raise e
          | Ok new_portfwds =>
              put_ri rid (set_ri_router
                        (set_portforwardings (Some new_portfwds)
                           (ri_router ri)) ri) ;;;
              let old_portfwds := ri_portforwardings ri in
              let '(adds, removes) :=
                diff_list_of_dict old_portfwds new_portfwds in
              for_each adds (_update_portforwardings rid create) ;;;
              for_each removes (_update_portforwardings rid delete_op) ;;;
              let* ri' := get_ri rid in
              put_ri rid (set_ri_portforwardings new_portfwds ri')
          end
      | None =>
          let old_portfwds := ri_portforwardings ri in
          for_each old_portfwds (_update_portforwardings rid delete_op) ;;;
          let* ri' := get_ri rid in
          put_ri rid (set_ri_portforwardings [] ri')
      end ;;;
      call (iptables_apply rid)
  end.

(** *** Router creation and removal *)

(** Modelled from the spec: the constructors of the runtime classes
    ([dvr_router.DvrRouter], [ha_router.HaRouter],
    [legacy_router.LegacyRouter]) are not under the sources.  A fresh
    runtime object holds the document it was built from and has applied
    no rule yet. *)
Definition new_router_info (v : Variant) (router_id : string)
    (router : Router) : RouterInfo :=
  {| ri_router_id := router_id; ri_router := router; ri_variant := v;
     ri_portforwardings := []; ri_ex_gw_port := None;
     ri_snat_ports := []; ri_enable_snat := None |}.

(** Modelled from the spec: [ri.is_ha], a property of the runtime
    classes; "if the variant is HA". *)
Definition is_ha (ri : RouterInfo) : bool :=
  match ri_variant ri with HaRouter => true | _ => false end.

Definition _create_router (router_id : string) (router : Router)
    : M RouterInfo :=
  if is_true_opt (distributed router) && is_true_opt (ha router) then
    raise (DvrHaRouterNotSupported router_id)
  else if is_true_opt (distributed router) then
    ret (new_router_info DvrRouter router_id router)
  else if is_true_opt (ha router) then
    ret (new_router_info HaRouter router_id router)
  else
    ret (new_router_info LegacyRouter router_id router).

Definition _router_added (router_id : string) (router : Router)
    : M unit :=
  let* ri := _create_router router_id router in
  call (radvd_monitor (id router)) ;;;
  call (notify before_router_added router_id) ;;;
  put_ri router_id ri ;;;
  call (ri_create router_id) ;;;
  call (process_router_add router_id) ;;;
  when (is_ha ri) (call (ri_initialize router_id)).

Definition set_distributed (d : option bool) (r : Router) : Router :=
  {| id := id r; distributed := d; ha := ha r;
     external_gateway_info := external_gateway_info r;
     gw_port := gw_port r; interfaces := interfaces r;
     floatingips := floatingips r;
     snat_router_interfaces := snat_router_interfaces r;
     enable_snat := enable_snat r;
     portforwardings := portforwardings r |}.

(** [ri.router['gw_port'] = None], [ri.router[INTERFACE_KEY] = []],
    [ri.router[FLOATINGIP_KEY] = []]. *)
Definition clear_router (r : Router) : Router :=
  {| id := id r; distributed := distributed r; ha := ha r;
     external_gateway_info := external_gateway_info r;
     gw_port := None; interfaces := [];
     floatingips := [];
     snat_router_interfaces := snat_router_interfaces r;
     enable_snat := enable_snat r;
     portforwardings := portforwardings r |}.

Definition set_ri_cache (gw : option Port) (snat : list Port)
    (en : option bool) (ri : RouterInfo) : RouterInfo :=
  {| ri_router_id := ri_router_id ri; ri_router := ri_router ri;
     ri_variant := ri_variant ri;
     ri_portforwardings := ri_portforwardings ri;
     ri_ex_gw_port := gw; ri_snat_ports := snat;
     ri_enable_snat := en |}.

(** [process_router(ri)] for the object registered under [rid].
    [ri.get_ex_gw_port()] reads [ri.router.get('gw_port')]; whether
    [ri.ha_port] is set is the runtime class's business and is asked
    of the environment.  The decorator logs and re-raises. *)
Definition process_router (rid : string) : M unit :=
  let* ri0 := get_ri rid in
  when (bool_decide (distributed (ri_router ri0) = None))
    (put_ri rid (set_ri_router
                   (set_distributed (Some false) (ri_router ri0)) ri0)) ;;;
  let* ri := get_ri rid in
  let ex_gw_port := gw_port (ri_router ri) in
  match ex_gw_port with
  | Some gw =>
      when (is_true_opt (distributed (ri_router ri)))
        (call (get_fip_ns (network_id gw)) ;;;
         call (scan_fip_ports rid))
  | None => ret tt
  end ;;;
  call (process_internal_ports rid) ;;;
  call (process_external rid) ;;;
  call (routes_updated rid) ;;;
  process_router_portforwardings rid ex_gw_port ;;;
  let* s := get_agent in
  when (is_ha ri && env_ha_port env (trace s) rid)
    (call (enable_keepalived rid)) ;;;
  let* ri' := get_ri rid in
  put_ri rid
    (set_ri_cache ex_gw_port
       (default [] (snat_router_interfaces (ri_router ri')))
       (enable_snat (ri_router ri')) ri').

Definition _router_removed (router_id : string) : M unit :=
  let* s := get_agent in
  match router_info s !! router_id with
  | None => ret tt
  | Some ri =>
      call (notify before_router_removed router_id) ;;;
      when (is_ha ri) (call (ri_terminate router_id)) ;;;
      put_ri router_id (set_ri_router (clear_router (ri_router ri)) ri) ;;;
      process_router router_id ;;;
      let* s' := get_agent in
      match router_info s' !! router_id with
      | None => raise (KeyError router_id)
      | Some _ => set_router_info (delete router_id (router_info s'))
      end ;;;
      call (ri_delete router_id) ;;;
      call (notify after_router_removed router_id)
  end.

(** *** Compatibility check, creation and update paths *)

Definition is_RemoteError (e : Exn) : bool :=
  match e with Collab (RemoteError _) => true | _ => false end.

Definition _fetch_external_net_id (force : bool) : M (option string) :=
  let* s := get_agent in
  if truthy (gateway_external_network_id (conf s)) then
    ret (Some (gateway_external_network_id (conf s)))
  else if negb (truthy (external_network_bridge (conf s))) then
    ret None
  else if negb force && truthy_opt (target_ex_net_id s) then
    ret (target_ex_net_id s)
  else
    try_except
      (let* v := call_ret get_external_network_id (env_external_net env) in
       set_target_ex_net_id (Some v) ;;;
       ret (Some v))
      is_RemoteError
      (λ e, match e with
            | Collab (RemoteError "TooManyExternalNetworks") =>
                raise (PlainException
                         "The 'gateway_external_network_id' option must be configured for this agent as Neutron has more than one external network.")
            | _ => raise e
            end).

Definition _process_added_router (router : Router) : M unit :=
  _router_added (id router) router ;;;
  let* ri := get_ri (id router) in
  put_ri (id router) (set_ri_router router ri) ;;;
  process_router (id router) ;;;
  call (notify after_router_added (id router)).

Definition _process_updated_router (router : Router) : M unit :=
  let* ri := get_ri (id router) in
  put_ri (id router) (set_ri_router router ri) ;;;
  call (notify before_router_updated (id router)) ;;;
  process_router (id router) ;;;
  call (notify after_router_updated (id router)).

(** [(router['external_gateway_info'] or {}).get('network_id')]. *)
Definition ex_net_id_of (router : Router) : option string :=
  match external_gateway_info router with
  | Some (Some n) => Some n
  | _ => None
  end.

Definition _process_router_if_compatible (router : Router) : M unit :=
  let* s := get_agent in
  let* missing_bridge :=
    (if truthy (external_network_bridge (conf s)) then
       let* b := call_ret (device_exists (external_network_bridge (conf s)))
                   (λ h, env_device_exists env h
                           (external_network_bridge (conf s))) in
       ret (negb b)
     else ret false) in
  if (missing_bridge : bool) then ret tt
  else if negb (use_namespaces (conf s))
          && negb (String.eqb (id router) (router_id (conf s))) then
    raise (RouterNotCompatibleWithAgent (id router))
  else
    let ex_net_id := ex_net_id_of router in
    if negb (truthy_opt ex_net_id)
       && negb (handle_internal_only_routers (conf s)) then
      raise (RouterNotCompatibleWithAgent (id router))
    else
      let* target := _fetch_external_net_id false in
      (if truthy_opt target && truthy_opt ex_net_id
          && negb (bool_decide (ex_net_id = target)) then
         let* forced := _fetch_external_net_id true in
         if negb (bool_decide (ex_net_id = forced)) then
           raise (RouterNotCompatibleWithAgent (id router))
         else ret tt
       else ret tt) ;;;
      let* s' := get_agent in
      match router_info s' !! id router with
      | None => _process_added_router router
      | Some _ => _process_updated_router router
      end.

(** *** The worker loop body *)

Definition is_Exception (e : Exn) : bool := true.
Definition is_RouterNotCompatibleWithAgent (e : Exn) : bool :=
  match e with RouterNotCompatibleWithAgent _ => true | _ => false end.

(** What the fetch step of one iteration leaves behind: [continue]
    after a failed fetch, or the router to work on and the timestamp
    now stored in the update. *)
Inductive Fetched :=
  | FetchFailed
  | Fetched_ (router : option Router) (timestamp : Z).

(** The part of the loop body from [router = update.router] to the
    end of the fetch. *)
Definition fetch_for_update (update : RouterUpdate) : M Fetched :=
  match u_action update, u_router update with
  | None, None =>
      try_except
        (let* now := call_ret utcnow (env_now env) in
         let* routers :=
           call_ret (get_routers (Some [u_id update]))
             (λ h, env_routers env h (Some [u_id update])) in
         ret (Fetched_ (head routers) now))
        is_Exception
        (λ _, set_fullsync true ;;; ret FetchFailed)
  | _, router => ret (Fetched_ router (u_timestamp update))
  end.

(** One iteration of [for rp, update in
    self._queue.each_update_to_next_router()].  The two [except]
    clauses of the last [try] are one handler that dispatches on the
    class: what the first clause raises is not caught by the second. *)
Definition process_one_update (update : RouterUpdate) : M unit :=
  let* f := fetch_for_update update in
  match f with
  | FetchFailed => ret tt
  | Fetched_ None _ =>
      try_except (_router_removed (u_id update)) is_Exception
        (λ _, set_fullsync true)
  | Fetched_ (Some router) timestamp =>
      let* finished :=
        try_except
          (_process_router_if_compatible router ;;; ret true)
          is_Exception
          (λ e, if is_RouterNotCompatibleWithAgent e then
                  let* s := get_agent in
                  match router_info s !! id router with
                  | Some _ => _router_removed (id router)
                  | None => ret tt
                  end ;;;
                  ret true
                else
                  set_fullsync true ;;; ret false) in
      when finished (call (fetched_and_processed (u_id update) timestamp))
  end.

(** [_process_router_update], given the updates the queue's iterator
    yields to this worker. *)
Definition _process_router_update (updates : list RouterUpdate) : M unit :=
  for_each updates process_one_update.

(** *** The periodic full sync *)

Definition sync_update (timestamp : Z) (r : Router) : RouterUpdate :=
  {| u_id := id r; u_priority := PRIORITY_SYNC_ROUTERS_TASK;
     u_action := None; u_router := Some r; u_timestamp := timestamp |}.
Definition delete_update (timestamp : Z) (router_id : string)
    : RouterUpdate :=
  {| u_id := router_id; u_priority := PRIORITY_SYNC_ROUTERS_TASK;
     u_action := Some DELETE_ROUTER; u_router := None;
     u_timestamp := timestamp |}.

(** The [else] branch of the fetch: everything after a fetch that
    returned [routers]. *)
Definition sync_fetched (prev_router_ids : gset string) (timestamp : Z)
    (routers : list Router) : M unit :=
  for_each routers
    (λ r, call (keep_router (id r)) ;;;
          call (queue_add (sync_update timestamp r))) ;;;
  set_fullsync false ;;;
  let curr_router_ids : gset string := list_to_set (id <$> routers) in
  for_each (elements (prev_router_ids ∖ curr_router_ids))
    (λ router_id, call (keep_router router_id) ;;;
                  call (queue_add (delete_update timestamp router_id))).

(** The argument of the full fetch: every router, or the single
    configured one when namespaces are off. *)
Definition sync_router_ids (c : Conf) : option (list string) :=
  if use_namespaces c then None else Some [router_id c].

Definition fetch_routers : M (list Router) :=
  let* s := get_agent in
  let ids := sync_router_ids (conf s) in
  call_ret (get_routers ids) (λ h, env_routers env h ids).

Definition fetch_and_sync_all_routers : M unit :=
  let* s := get_agent in
  let prev_router_ids : gset string := dom (router_info s) in
  let* timestamp := call_ret utcnow (env_now env) in
  let* routers :=
    try_except fetch_routers is_MessagingException
      (λ _, raise AbortSyncRouters) in
  sync_fetched prev_router_ids timestamp routers.

(** Modelled from the spec: [with self.namespaces_manager as
    ns_manager], whose class is not under the sources.  The manager
    captures its snapshot on entry and does not swallow what the body
    raises ("signals AbortSyncRouters, causing FullSyncFlag to be
    re-set by the caller"). *)
Definition with_namespaces_manager (body : M unit) : M unit :=
  call ns_enter ;;;
  (λ s, match body s with
        | (Ok tt, s') => call (ns_exit false) s'
        | (Raise e, s') => (call (ns_exit true) ;;; raise e) s'
        end).

Definition is_AbortSyncRouters (e : Exn) : bool :=
  match e with AbortSyncRouters => true | _ => false end.

Definition periodic_sync_routers_task : M unit :=
  call process_services_sync ;;;
  let* s := get_agent in
  if negb (fullsync s) then ret tt
  else
    try_except (with_namespaces_manager fetch_and_sync_all_routers)
      is_AbortSyncRouters
      (λ _, set_fullsync true).

(** *** Start-up: the service-plugin query of [__init__] *)

(** The [while True] loop, with [retry_count] as it stands on entry to
    an iteration.  [None] only when [fuel] iterations were not enough. *)
Fixpoint service_plugin_loop (fuel : nat) (retry_count : Z) (s : Agent)
    : option (Outcome unit * Agent) :=
  match fuel with
  | O => None
  | S fuel' =>
      let retry_count := retry_count - 1 in
      match call_ret get_service_plugin_list (env_plugins env) s with
      | (Ok v, s') => Some (Ok tt, with_neutron_service_plugins (Some v) s')
      | (Raise (Collab (RemoteError _)), s') =>
          Some (Ok tt, with_neutron_service_plugins None s')
      | (Raise (Collab MessagingTimeout), s') =>
          if bool_decide (retry_count > 0) then
            service_plugin_loop fuel' retry_count s'
          else Some (Raise (Collab MessagingTimeout), s')
      | (Raise e, s') => Some (Raise e, s')
      end
  end.

(** [self.fullsync = True; retry_count = 5; while True: ...]. *)
Definition init_service_plugins (fuel : nat) (s : Agent)
    : option (Outcome unit * Agent) :=
  service_plugin_loop fuel 5 (with_fullsync true s).

End WithEnv.

(** ** Vocabulary of the statements *)

(** An environment in which no collaborator call raises. *)
Definition quiet (env : Env) : Prop := ∀ h c, env_raises env h c = None.

(** The entry carries the ['outside_addr'] key. *)
Definition populated (p : PortFwd) : Prop := is_Some (outside_addr p).

(** The calls that install and retract the DNAT rule of an entry. *)
Definition install_call (rid : string) (p : PortFwd) : Call :=
  add_rule rid "PREROUTING"
    (rule_text (default None (outside_addr p)) p) "portforwarding".
Definition retract_call (rid : string) (p : PortFwd) : Call :=
  remove_rule rid "PREROUTING"
    (rule_text (default None (outside_addr p)) p).

(** The calls made between two states of the agent. *)
Definition calls_since (s s' : Agent) : list Call :=
  drop (length (trace s)) (trace s').

(** The call enqueues a DeleteRouter update for [rid]. *)
Definition is_delete_enqueue (rid : string) (c : Call) : bool :=
  match c with
  | queue_add u =>
      bool_decide (u_id u = rid)
      && bool_decide (u_action u = Some DELETE_ROUTER)
  | _ => false
  end.

(** The two calls a full sync makes for a fetched router and for a
    router that disappeared. *)
Definition sync_calls (timestamp : Z) (r : Router) : list Call :=
  [keep_router (id r); queue_add (sync_update timestamp r)].
Definition delete_calls (timestamp : Z) (rid : string) : list Call :=
  [keep_router rid; queue_add (delete_update timestamp rid)].

(** The call releases a router through [fetched_and_processed]. *)
Definition is_release (c : Call) : bool :=
  match c with fetched_and_processed _ _ => true | _ => false end.

(** The fetch of a full sync started in [s] returns: neither the clock
    nor the controller raises. *)
Definition fetch_succeeds (env : Env) (s : Agent) : Prop :=
  env_raises env (trace s) utcnow = None
  ∧ env_raises env (trace s ++ [utcnow])
      (get_routers (sync_router_ids (conf s))) = None.

(** ** Sample data *)

Module Sample.

(** Nothing raises; the controller knows no router. *)
Definition quiet_env : Env :=
  {| env_raises := λ _ _, None;
     env_routers := λ _ _, [];
     env_external_net := λ _, "ext-net";
     env_device_exists := λ _ _, false;
     env_now := λ _, 42;
     env_plugins := λ _, [];
     env_ha_port := λ _ _, false |}.

Definition gw : Port :=
  {| network_id := "ext-net";
     fixed_ips := Some [ {| ip_address := Some "172.24.4.2" |} ] |}.

Definition pf (inside : string) (oa : option (option string)) : PortFwd :=
  {| protocol := "tcp"; outside_addr := oa; outside_port := 80;
     inside_addr := inside; inside_port := 8080 |}.

Definition doc (rid : string) (d h : option bool) (g : option Port)
    (pfs : option (list PortFwd)) : Router :=
  {| id := rid; distributed := d; ha := h;
     external_gateway_info := (λ p, Some (network_id p)) <$> g;
     gw_port := g; interfaces := []; floatingips := [];
     snat_router_interfaces := None; enable_snat := None;
     portforwardings := pfs |}.

Definition cfg (bridge : string) (internal_only : bool) : Conf :=
  {| use_namespaces := true; router_id := "";
     handle_internal_only_routers := internal_only;
     external_network_bridge := bridge;
     gateway_external_network_id := "" |}.

Definition agent (c : Conf) (reg : gmap string RouterInfo) (fs : bool)
    : Agent :=
  {| conf := c; router_info := reg; fullsync := fs;
     target_ex_net_id := None; neutron_service_plugins := None;
     trace := [] |}.

(** A legacy runtime object for [r] with [applied] as stored rules. *)
Definition ri_with (r : Router) (applied : list PortFwd) : RouterInfo :=
  {| ri_router_id := id r; ri_router := r; ri_variant := LegacyRouter;
     ri_portforwardings := applied; ri_ex_gw_port := gw_port r;
     ri_snat_ports := []; ri_enable_snat := None |}.

Definition old_pf : PortFwd := pf "10.0.0.5" (Some (Some "172.24.4.2")).
Definition new_pf : PortFwd := pf "10.0.0.6" None.

(** Router r1 with a gateway and one desired rule towards 10.0.0.6,
    known to the agent with one applied rule towards 10.0.0.5. *)
Definition r1 : Router := doc "r1" None None (Some gw) (Some [new_pf]).
Definition agent1 : Agent :=
  agent (cfg "" false) {[ "r1" := ri_with r1 [old_pf] ]} false.

(** The same router after its gateway was cleared. *)
Definition r1_no_gw : Router := doc "r1" None None None (Some [new_pf]).
Definition agent1_no_gw : Agent :=
  agent (cfg "" false) {[ "r1" := ri_with r1_no_gw [old_pf] ]} false.

(** A router that is both distributed and HA. *)
Definition r_dvr_ha : Router :=
  doc "r9" (Some true) (Some true) (Some gw) None.

(** An agent bound to the bridge br-ex, which the sample environment
    reports missing. *)
(** The controller times out on every service-plugin query. *)
Definition timeout_env : Env :=
  {| env_raises := λ _ c, match c with
                          | get_service_plugin_list => Some MessagingTimeout
                          | _ => None
                          end;
     env_routers := λ _ _, [];
     env_external_net := λ _, "ext-net";
     env_device_exists := λ _ _, false;
     env_now := λ _, 42;
     env_plugins := λ _, [];
     env_ha_port := λ _ _, false |}.

(** The controller times out on every router fetch. *)
Definition fetch_fails_env : Env :=
  {| env_raises := λ _ c, match c with
                          | get_routers _ => Some MessagingTimeout
                          | _ => None
                          end;
     env_routers := λ _ _, [];
     env_external_net := λ _, "ext-net";
     env_device_exists := λ _ _, false;
     env_now := λ _, 42;
     env_plugins := λ _, [];
     env_ha_port := λ _ _, false |}.

(** Deleting the runtime object of a router fails. *)
Definition delete_fails_env : Env :=
  {| env_raises := λ _ c, match c with
                          | ri_delete _ => Some (OtherError "boom")
                          | _ => None
                          end;
     env_routers := λ _ _, [];
     env_external_net := λ _, "ext-net";
     env_device_exists := λ _ _, false;
     env_now := λ _, 42;
     env_plugins := λ _, [];
     env_ha_port := λ _ _, false |}.

(** The controller knows router r2 only. *)
Definition r2 : Router := doc "r2" None None (Some gw) None.
Definition r2_env : Env :=
  {| env_raises := λ _ _, None;
     env_routers := λ _ _, [r2];
     env_external_net := λ _, "ext-net";
     env_device_exists := λ _ _, false;
     env_now := λ _, 42;
     env_plugins := λ _, [];
     env_ha_port := λ _ _, false |}.

(** The agent of [agent1] with the full-sync flag set. *)
Definition agent1_fullsync : Agent :=
  agent (cfg "" false) {[ "r1" := ri_with r1 [old_pf] ]} true.

Definition update (rid : string) (a : option Action) (r : option Router)
    : RouterUpdate :=
  {| u_id := rid; u_priority := PRIORITY_RPC; u_action := a;
     u_router := r; u_timestamp := 7 |}.

(** An agent that knows r2, whose document has no 'portforwardings'
    key. *)
Definition agent2 : Agent :=
  agent (cfg "" false) {[ "r2" := ri_with r2 [old_pf] ]} false.

Definition agent_bridge : Agent :=
  agent (cfg "br-ex" false) {[ "r1" := ri_with r1 [old_pf] ]} false.

End Sample.

(** * The rest of the agent *)

Local Open Scope list_scope.

(** ** Floating IP statuses, state reports and configuration *)

(** [l3_constants.FLOATINGIP_STATUS_DOWN]. *)
Definition FLOATINGIP_STATUS_DOWN : string := "DOWN".

(** [update_fip_statuses(ri, existing_floating_ips, fip_statuses)]: the
    new value of [ri.floating_ips] and the status dict as it is when
    handed to [plugin_rpc.update_floatingip_statuses], the call that
    ends the method. *)
Definition update_fip_statuses (existing_floating_ips : gset string)
    (fip_statuses : gmap string string) : gset string * gmap string string :=
  let floating_ips : gset string := dom fip_statuses in
  (floating_ips,
   foldl (λ statuses fip_id, <[fip_id := FLOATINGIP_STATUS_DOWN]> statuses)
     fip_statuses (elements (existing_floating_ips ∖ floating_ips))).

(** [agent_updated]: the server asks for a full sync. *)
Definition agent_updated : M unit := set_fullsync true.

(** What [state_rpc.report_state] did. *)
Inductive ReportOutcome :=
  | ReportOk
  | ReportAttributeError
  | ReportException.

(** The fields of [L3NATAgentWithStateReport] that [_report_state] reads
    and writes: whether [agent_state] still has its ['start_flag'] key,
    [use_call], whether the heartbeat runs, and the four counters of
    [agent_state['configurations']]. *)
Record StateReport := {
  start_flag : bool;
  use_call : bool;
  heartbeat : bool;
  routers : nat;
  ex_gw_ports : nat;
  num_interfaces : nat;
  num_floating_ips : nat;
}.

(** The loop over [self.router_info.values()]. *)
Definition count_ex_gw_ports (infos : list RouterInfo) : nat :=
  length (List.filter (λ ri, bool_decide (is_Some (gw_port (ri_router ri))))
            infos).
Definition count_interfaces (infos : list RouterInfo) : nat :=
  foldr (λ ri n, (length (interfaces (ri_router ri)) + n)%nat) 0%nat infos.
Definition count_floating_ips (infos : list RouterInfo) : nat :=
  foldr (λ ri n, (length (floatingips (ri_router ri)) + n)%nat) 0%nat infos.

(** [_report_state], given what the report call does. *)
Definition _report_state (outcome : ReportOutcome)
    (router_info : gmap string RouterInfo) (st : StateReport) : StateReport :=
  let router_infos := (map_to_list router_info).*2 in
  let counted :=
    {| start_flag := start_flag st; use_call := use_call st;
       heartbeat := heartbeat st;
       routers := length router_infos;
       ex_gw_ports := count_ex_gw_ports router_infos;
       num_interfaces := count_interfaces router_infos;
       num_floating_ips := count_floating_ips router_infos |} in
  match outcome with
  | ReportOk =>
      {| start_flag := false; use_call := false;
         heartbeat := heartbeat counted;
         routers := routers counted; ex_gw_ports := ex_gw_ports counted;
         num_interfaces := num_interfaces counted;
         num_floating_ips := num_floating_ips counted |}
  | ReportAttributeError =>
      {| start_flag := start_flag counted; use_call := use_call counted;
         heartbeat := false;
         routers := routers counted; ex_gw_ports := ex_gw_ports counted;
         num_interfaces := num_interfaces counted;
         num_floating_ips := num_floating_ips counted |}
  | ReportException => counted
  end.

(** What [_check_config_params] does: it returns, or leaves the
    process through [SystemExit]. *)
Inductive ConfigCheck :=
  | ConfigOk
  | SystemExit (code : Z).

(** [_check_config_params], with [interface_driver] the option of that
    name, which the rest of the model does not read. *)
Definition _check_config_params (interface_driver : option string)
    (c : Conf) : ConfigCheck :=
  if negb (truthy_opt interface_driver) then SystemExit 1
  else if negb (use_namespaces c) && negb (truthy (router_id c)) then
    SystemExit 1
  else ConfigOk.

(** ** Invariants of runs *)

(** Running [m] from a state in [I] ends in a state in [I], whether [m]
    returns or raises. *)
Definition keeps {A} (I : Agent → Prop) (m : M A) : Prop :=
  ∀ s, I s → I (m s).2.

(** Whatever [m] raises is in the class [C]. *)
Definition raises_only {A} (C : Exn → Prop) (m : M A) : Prop :=
  ∀ s e, (m s).1 = Raise e → C e.

(** [I] does not look at the trace. *)
Definition trace_blind (I : Agent → Prop) : Prop :=
  ∀ cs s, I s → I (add_calls cs s).

(** Every stored port-forward entry of every registered router carries
    its ['outside_addr']. *)
Definition registry_populated (s : Agent) : Prop :=
  ∀ rid ri, router_info s !! rid = Some ri →
            Forall populated (ri_portforwardings ri).

(** Since [s0], only calls in [P] were made. *)
Definition only_calls (P : Call → Prop) (s0 s : Agent) : Prop :=
  ∃ cs, trace s = trace s0 ++ cs ∧ Forall P cs.

(** The calls port-forward reconciliation may make for router [rid]: a
    DNAT rule added to or removed from PREROUTING, and the commit. *)
Definition is_portforward_call (rid : string) (c : Call) : Prop :=
  (∃ a p, c = add_rule rid "PREROUTING" (rule_text a p) "portforwarding")
  ∨ (∃ a p, c = remove_rule rid "PREROUTING" (rule_text a p))
  ∨ c = iptables_apply rid.

(** The outcome and final state of running [m] from [s] satisfy [Q]. *)
Definition post {A} (m : M A) (s : Agent) (Q : Outcome A → Agent → Prop)
    : Prop :=
  Q (m s).1 (m s).2.

(** Neither of the two signals the agent raises for its own control
    flow. *)
Definition not_a_signal (e : Exn) : Prop :=
  is_RouterNotCompatibleWithAgent e = false ∧ is_AbortSyncRouters e = false.

(** The runtime class [_create_router] picks for a router document. *)
Definition variant_of (router : Router) : Variant :=
  if is_true_opt (distributed router) then DvrRouter
  else if is_true_opt (ha router) then HaRouter
  else LegacyRouter.

(** The call does not release a router. *)
Definition no_release (c : Call) : Prop := is_release c = false.

(** The state report after a series of runs of [_report_state], each
    given with what the report call did and the registry it found. *)
Definition report_all (reports : list (ReportOutcome * gmap string RouterInfo))
    (st : StateReport) : StateReport :=
  foldl (λ st r, _report_state r.1 r.2 st) st reports.

(** The exception is the fault of a collaborator call. *)
Definition is_fault (e : Exn) : Prop := ∃ ft, e = Collab ft.

(** The calls of a port-forward pass without gateway for the runtime
    object [ri]: nothing when the document has no 'portforwardings'
    key, else one retraction per stored entry and the commit. *)
Definition pass_calls (rid : string) (ri : RouterInfo) : list Call :=
  match portforwardings (ri_router ri) with
  | Some _ => (retract_call rid <$> ri_portforwardings ri)
              ++ [iptables_apply rid]
  | None => []
  end.

(** The calls of [process_router] for a router without gateway, made
    after the calls [h]. *)
Definition gatewayless_calls (env : Env) (rid : string) (ri : RouterInfo)
    (h : list Call) : list Call :=
  let core := [process_internal_ports rid; process_external rid;
               routes_updated rid] ++ pass_calls rid ri in
  core ++ (if is_ha ri && env_ha_port env (h ++ core) rid
           then [enable_keepalived rid] else []).

(** The calls of a removal of the router held by [ri], made after the
    calls [h]. *)
Definition removal_calls (env : Env) (rid : string) (ri : RouterInfo)
    (h : list Call) : list Call :=
  let before := [notify before_router_removed rid]
                ++ (if is_ha ri then [ri_terminate rid] else []) in
  before ++ gatewayless_calls env rid ri (h ++ before)
  ++ [ri_delete rid; notify after_router_removed rid].

(** The fields of a router document that [process_router] caches on the
    runtime object. *)
Definition cached_fields (r : Router) : option Port * list Port * option bool :=
  (gw_port r, default [] (snat_router_interfaces r), enable_snat r).

(** The cache of a runtime object. *)
Definition cache_of (ri : RouterInfo) : option Port * list Port * option bool :=
  (ri_ex_gw_port ri, ri_snat_ports ri, ri_enable_snat ri).

(** The router [rid] is registered, with document fields [doc] and
    cache [cache]. *)
Definition registered_with (rid : string)
    (doc cache : option Port * list Port * option bool) (s : Agent) : Prop :=
  ∃ ri, router_info s !! rid = Some ri
        ∧ cached_fields (ri_router ri) = doc ∧ cache_of ri = cache.

(** ** More sample data *)

Module Scenario.

(** A gateway port that has no ['fixed_ips'] yet. *)
Definition gw_no_ips : Port :=
  {| network_id := "ext-net"; fixed_ips := None |}.

(** Creating the runtime object of a router fails. *)
Definition create_fails_env : Env :=
  {| env_raises := λ _ c, match c with
                          | ri_create _ => Some (OtherError "boom")
                          | _ => None
                          end;
     env_routers := λ _ _, [];
     env_external_net := λ _, "ext-net";
     env_device_exists := λ _ _, true;
     env_now := λ _, 42;
     env_plugins := λ _, [];
     env_ha_port := λ _ _, false |}.

(** The controller knows more than one external network. *)
Definition too_many_env : Env :=
  {| env_raises := λ _ c, match c with
                          | get_external_network_id =>
                              Some (RemoteError "TooManyExternalNetworks")
                          | _ => None
                          end;
     env_routers := λ _ _, [];
     env_external_net := λ _, "ext-net";
     env_device_exists := λ _ _, true;
     env_now := λ _, 42;
     env_plugins := λ _, [];
     env_ha_port := λ _ _, false |}.

(** An agent without namespaces, bound to router r1. *)
Definition single_router_cfg : Conf :=
  {| use_namespaces := false; router_id := "r1";
     handle_internal_only_routers := true;
     external_network_bridge := "";
     gateway_external_network_id := "" |}.

(** A state report that has not been sent yet. *)
Definition first_report : StateReport :=
  {| start_flag := true; use_call := true; heartbeat := true;
     routers := 0; ex_gw_ports := 0; num_interfaces := 0;
     num_floating_ips := 0 |}.

End Scenario.

(** * Properties *)

Local Open Scope list_scope.

(** ** The monad and the trace *)

Lemma add_calls_nil s : add_calls [] s = s.
Proof. destruct s; unfold add_calls; simpl. by rewrite app_nil_r. Qed.

Lemma add_calls_app a b s : add_calls b (add_calls a s) = add_calls (a ++ b) s.
Proof. unfold add_calls; simpl. by rewrite app_assoc. Qed.

Lemma router_info_add_calls cs s : router_info (add_calls cs s) = router_info s.
Proof. done. Qed.

Lemma router_info_with m s : router_info (with_router_info m s) = m.
Proof. done. Qed.

Lemma calls_since_add_calls cs m s :
  calls_since s (add_calls cs (with_router_info m s)) = cs.
Proof. unfold calls_since, add_calls; simpl. by rewrite drop_app_length. Qed.

Lemma with_router_info_id s : with_router_info (router_info s) s = s.
Proof. by destruct s. Qed.

Lemma call_quiet env c s : quiet env → call env c s = (Ok tt, add_calls [c] s).
Proof. intros Hq. unfold call. by rewrite Hq. Qed.

Lemma rule_in_populated p :
  populated p → rule_in p = Ok (rule_text (default None (outside_addr p)) p).
Proof. intros [a Ha]. unfold rule_in. by rewrite Ha. Qed.

Lemma for_each_retract env rid l s :
  quiet env → Forall populated l →
  for_each l (_update_portforwardings env rid delete_op) s
  = (Ok tt, add_calls (retract_call rid <$> l) s).
Proof.
  intros Hq Hl. revert s. induction Hl as [|p l Hp Hl IH]; intros s; simpl.
  - by rewrite add_calls_nil.
  - unfold bind, _update_portforwardings. rewrite (rule_in_populated p Hp).
    rewrite (call_quiet env _ s Hq). rewrite IH. by rewrite add_calls_app.
Qed.

Lemma for_each_install env rid l s :
  quiet env → Forall populated l →
  for_each l (_update_portforwardings env rid create) s
  = (Ok tt, add_calls (install_call rid <$> l) s).
Proof.
  intros Hq Hl. revert s. induction Hl as [|p l Hp Hl IH]; intros s; simpl.
  - by rewrite add_calls_nil.
  - unfold bind, _update_portforwardings. rewrite (rule_in_populated p Hp).
    rewrite (call_quiet env _ s Hq). rewrite IH. by rewrite add_calls_app.
Qed.

Lemma populate_ok gw f rest l :
  fixed_ips gw = Some (f :: rest) →
  populate gw l = Ok (set_outside_addr (ip_address f) <$> l).
Proof.
  intros Hg. induction l as [|p l IH]; simpl; [done|].
  unfold first_fixed_ip. rewrite Hg. by rewrite IH.
Qed.

Lemma populate_populated gw l l' : populate gw l = Ok l' → Forall populated l'.
Proof.
  revert l'. induction l as [|p l IH]; simpl; intros l' H.
  - inversion H. constructor.
  - destruct (first_fixed_ip gw); [|done].
    destruct (populate gw l); [|done]. injection H as <-.
    constructor; [by eexists | by apply IH].
Qed.

Lemma multiset_diff_self l : multiset_diff l l = [].
Proof.
  unfold multiset_diff. induction l as [|x l IH]; simpl; [done|].
  by rewrite decide_True.
Qed.

Lemma remove_one_sub x l : remove_one x l ⊆ l.
Proof.
  induction l as [|y l IH]; simpl; [done|].
  case_decide.
  - intros z Hz. by right.
  - intros z Hz. apply elem_of_cons in Hz as [->|Hz]; [left|right; by apply IH].
Qed.

Lemma multiset_diff_sub a b : multiset_diff a b ⊆ a.
Proof.
  unfold multiset_diff. revert a. induction b as [|x b IH]; intros a; simpl; [done|].
  etrans; [apply IH | apply remove_one_sub].
Qed.

(** The shape of one pass with a gateway port. *)
Lemma pass_with_gateway env s rid ri gw pfs new :
  quiet env →
  router_info s !! rid = Some ri →
  portforwardings (ri_router ri) = Some pfs →
  populate gw pfs = Ok new →
  Forall populated (ri_portforwardings ri) →
  process_router_portforwardings env rid (Some gw) s
  = (Ok tt,
     add_calls ((install_call rid <$> (diff_list_of_dict (ri_portforwardings ri) new).1)
                ++ (retract_call rid <$> (diff_list_of_dict (ri_portforwardings ri) new).2)
                ++ [iptables_apply rid])
       (with_router_info
          (<[rid := set_ri_portforwardings new
                      (set_ri_router (set_portforwardings (Some new) (ri_router ri)) ri)]>
             (router_info s)) s)).
Proof.
  intros Hq Hri Hpf Hpop Hold.
  unfold process_router_portforwardings, bind at 1, get_ri, bind at 1, get_agent.
  rewrite Hri. unfold ret at 1. rewrite Hpf, Hpop.
  unfold bind at 1. unfold bind at 1. unfold put_ri at 1, bind at 1, get_agent, set_router_info.
  unfold diff_list_of_dict. simpl fst. simpl snd.
  unfold bind at 1.
  rewrite for_each_install; [|done|].
  2:{ eapply Forall_forall. intros x Hx. apply multiset_diff_sub in Hx.
      eapply Forall_forall in Hx; [exact Hx|]. by eapply populate_populated. }
  unfold bind at 1.
  rewrite for_each_retract; [|done|].
  2:{ eapply Forall_forall. intros x Hx. apply multiset_diff_sub in Hx.
      eapply Forall_forall in Hx; [exact Hx|]. done. }
  unfold bind at 1, get_ri, bind at 1, get_agent.
  rewrite !router_info_add_calls, router_info_with.
  rewrite lookup_insert_eq. unfold ret at 1. unfold put_ri, bind, get_agent, set_router_info.
  rewrite call_quiet by done.
  f_equal. unfold add_calls, with_router_info; simpl.
  rewrite insert_insert_eq. by rewrite <- !app_assoc.
Qed.

Lemma pass_without_gateway env s rid ri pfs :
  quiet env →
  router_info s !! rid = Some ri →
  portforwardings (ri_router ri) = Some pfs →
  Forall populated (ri_portforwardings ri) →
  process_router_portforwardings env rid None s
  = (Ok tt,
     add_calls ((retract_call rid <$> ri_portforwardings ri)
                ++ [iptables_apply rid])
       (with_router_info
          (<[rid := set_ri_portforwardings [] ri]> (router_info s)) s)).
Proof.
  intros Hq Hri Hpf Hold.
  unfold process_router_portforwardings, bind at 1, get_ri, bind at 1, get_agent.
  rewrite Hri. unfold ret at 1. rewrite Hpf.
  unfold bind at 1. unfold bind at 1.
  rewrite for_each_retract by done.
  unfold bind at 1, get_ri, bind at 1, get_agent.
  rewrite router_info_add_calls, Hri. unfold ret at 1.
  unfold put_ri, bind, get_agent, set_router_info.
  rewrite call_quiet by done.
  f_equal. unfold add_calls, with_router_info; simpl.
  by rewrite <- !app_assoc.
Qed.

Lemma pass_without_capability env s rid ri gw :
  router_info s !! rid = Some ri →
  portforwardings (ri_router ri) = None →
  process_router_portforwardings env rid gw s = (Ok tt, s).
Proof.
  intros Hri Hpf.
  unfold process_router_portforwardings, bind, get_ri, bind, get_agent.
  rewrite Hri. simpl. by rewrite Hpf.
Qed.

(** C8.  Degenerate branches of port-forward reconciliation.  When the
    router document has no 'portforwardings' key the step returns at
    once, whatever the gateway port: the agent is left exactly as it was,
    so no rule is touched and nothing is committed.  When the key is
    present but there is no gateway port (and no collaborator call
    raises), the calls made are exactly one retraction per previously
    applied entry followed by the commit, the stored collection becomes
    empty, other routers and the full-sync flag are untouched. *)
Theorem portforwardings_degenerate_branches env s rid ri :
  router_info s !! rid = Some ri →
  (portforwardings (ri_router ri) = None →
   ∀ gw, process_router_portforwardings env rid gw s = (Ok tt, s))
  ∧ (is_Some (portforwardings (ri_router ri)) →
     quiet env →
     Forall populated (ri_portforwardings ri) →
     ∃ s', process_router_portforwardings env rid None s = (Ok tt, s')
       ∧ calls_since s s'
         = (retract_call rid <$> ri_portforwardings ri) ++ [iptables_apply rid]
       ∧ ri_portforwardings <$> router_info s' !! rid = Some []
       ∧ (∀ other, other ≠ rid → router_info s' !! other = router_info s !! other)
       ∧ fullsync s' = fullsync s).
Proof.
  intros Hri. split.
  - intros Hpf gw. by eapply pass_without_capability.
  - intros [pfs Hpf] Hq Hold. eexists. split.
    { by eapply pass_without_gateway. }
    repeat split.
    + by rewrite calls_since_add_calls.
    + rewrite router_info_add_calls, router_info_with, lookup_insert_eq. done.
    + intros other Hne. rewrite router_info_add_calls, router_info_with.
      by rewrite lookup_insert_ne.
Qed.

Lemma set_outside_addr_twice a (l : list PortFwd) :
  set_outside_addr a <$> (set_outside_addr a <$> l) = set_outside_addr a <$> l.
Proof. rewrite <- list_fmap_compose. by apply list_fmap_ext. Qed.

Lemma diff_list_of_dict_same l : diff_list_of_dict l l = ([], []).
Proof. unfold diff_list_of_dict. by rewrite multiset_diff_self. Qed.

Lemma populated_set_outside_addr a (l : list PortFwd) :
  Forall populated (set_outside_addr a <$> l).
Proof. apply Forall_fmap, Forall_true. intros p. by eexists. Qed.

(** C4.  Port-forward reconciliation is idempotent.  After one pass with
    a gateway port whose first fixed IP exists, the stored collection is
    the desired collection (every entry carrying that address), whatever
    the deltas were, and the router document shares the populated
    entries.  A second pass, on that state or after the update path has
    put a fresh copy of the same document in place, computes empty adds
    and removes and makes a single collaborator call, the commit; the
    agent is otherwise unchanged. *)
Theorem portforwardings_idempotent env s rid ri gw f rest pfs :
  quiet env →
  router_info s !! rid = Some ri →
  portforwardings (ri_router ri) = Some pfs →
  fixed_ips gw = Some (f :: rest) →
  Forall populated (ri_portforwardings ri) →
  let desired := set_outside_addr (ip_address f) <$> pfs in
  ∃ s1 ri1,
    process_router_portforwardings env rid (Some gw) s = (Ok tt, s1)
    ∧ router_info s1 !! rid = Some ri1
    ∧ ri_portforwardings ri1 = desired
    ∧ portforwardings (ri_router ri1) = Some desired
    ∧ diff_list_of_dict (ri_portforwardings ri1) desired = ([], [])
    ∧ process_router_portforwardings env rid (Some gw) s1
      = (Ok tt, add_calls [iptables_apply rid] s1)
    ∧ process_router_portforwardings env rid (Some gw)
        (with_router_info
           (<[rid := set_ri_router (ri_router ri) ri1]> (router_info s1)) s1)
      = (Ok tt, add_calls [iptables_apply rid] s1).
Proof.
  intros Hq Hri Hpf Hgw Hold desired.
  pose proof (populate_ok gw f rest pfs Hgw) as Hpop.
  pose proof (pass_with_gateway env s rid ri gw pfs desired Hq Hri Hpf Hpop Hold)
    as Hpass.
  set (ri1 := set_ri_portforwardings desired
                (set_ri_router (set_portforwardings (Some desired) (ri_router ri))
                   ri)) in *.
  set (s0 := with_router_info (<[rid := ri1]> (router_info s)) s) in *.
  destruct (diff_list_of_dict (ri_portforwardings ri) desired) as [adds removes].
  simpl in Hpass.
  set (s1 := add_calls _ s0) in Hpass.
  assert (Hri1 : router_info s1 !! rid = Some ri1).
  { subst s1 s0. by rewrite router_info_add_calls, router_info_with, lookup_insert_eq. }
  assert (Hpop1 : populate gw desired = Ok desired).
  { rewrite (populate_ok gw f rest _ Hgw). subst desired.
    by rewrite set_outside_addr_twice. }
  assert (Hdes : Forall populated desired) by apply populated_set_outside_addr.
  exists s1, ri1. split; [exact Hpass|].
  split; [done|]. split; [done|]. split; [done|].
  split; [apply diff_list_of_dict_same|].
  split.
  - rewrite (pass_with_gateway env s1 rid ri1 gw desired desired Hq Hri1 eq_refl
               Hpop1 Hdes).
    change (ri_portforwardings ri1) with desired.
    rewrite diff_list_of_dict_same. simpl. f_equal.
    change (set_ri_portforwardings desired _) with ri1.
    rewrite (insert_id _ _ _ Hri1). by rewrite with_router_info_id.
  - set (s1' := with_router_info _ s1).
    assert (Hri1' : router_info s1' !! rid = Some (set_ri_router (ri_router ri) ri1)).
    { subst s1'. by rewrite router_info_with, lookup_insert_eq. }
    rewrite (pass_with_gateway env s1' rid _ gw pfs desired Hq Hri1' Hpf Hpop Hdes).
    change (ri_portforwardings (set_ri_router (ri_router ri) ri1)) with desired.
    rewrite diff_list_of_dict_same. simpl. f_equal.
    change (set_ri_portforwardings desired _) with ri1.
    subst s1'. rewrite !insert_insert_eq. by f_equal.
Qed.

(** C3.  Diffing is by full structural equality.  With a gateway port,
    old = [{tcp, 80, 10.0.0.5, 8080}] and new = [{tcp, 80, 10.0.0.6,
    8080}] (same outside port, outside address populated from the
    gateway's first fixed IP) give adds = [new] and removes = [old]: the
    pass installs the new rule, retracts the old one and commits. *)
Theorem portforwardings_replace_on_inside_change env s rid ri gw ip rest :
  quiet env →
  router_info s !! rid = Some ri →
  fixed_ips gw = Some ({| ip_address := Some ip |} :: rest) →
  ri_portforwardings ri = [Sample.pf "10.0.0.5" (Some (Some ip))] →
  portforwardings (ri_router ri) = Some [Sample.pf "10.0.0.6" None] →
  let old := Sample.pf "10.0.0.5" (Some (Some ip)) in
  let new := Sample.pf "10.0.0.6" (Some (Some ip)) in
  diff_list_of_dict [old] [new] = ([new], [old])
  ∧ ∃ s', process_router_portforwardings env rid (Some gw) s = (Ok tt, s')
      ∧ calls_since s s'
        = [install_call rid new; retract_call rid old; iptables_apply rid]
      ∧ ri_portforwardings <$> router_info s' !! rid = Some [new].
Proof.
  intros Hq Hri Hgw Hold Hpf old new.
  assert (Hdiff : diff_list_of_dict [old] [new] = ([new], [old])).
  { unfold diff_list_of_dict, multiset_diff; simpl.
    rewrite !decide_False; [done| |]; intros [=]. }
  split; [exact Hdiff|].
  eexists. split.
  { eapply pass_with_gateway; [done..| |].
    - by rewrite (populate_ok gw _ rest _ Hgw).
    - rewrite Hold. repeat constructor. by eexists. }
  split.
  - rewrite calls_since_add_calls, Hold.
    change (set_outside_addr _ <$> _) with [new].
    fold old. by rewrite Hdiff.
  - by rewrite router_info_add_calls, router_info_with, lookup_insert_eq.
Qed.

Lemma quiet_sample : quiet Sample.quiet_env.
Proof. intros h c. reflexivity. Defined.

Lemma portforwardings_degenerate_branches_witness :
  (router_info Sample.agent2 !! "r2"
   = Some (Sample.ri_with Sample.r2 [Sample.old_pf])
   ∧ portforwardings Sample.r2 = None
   ∧ process_router_portforwardings Sample.quiet_env "r2" (Some Sample.gw)
       Sample.agent2 = (Ok tt, Sample.agent2))
  ∧ router_info Sample.agent1_no_gw !! "r1"
    = Some (Sample.ri_with Sample.r1_no_gw [Sample.old_pf])
  ∧ is_Some (portforwardings Sample.r1_no_gw)
  ∧ quiet Sample.quiet_env
  ∧ Forall populated [Sample.old_pf]
  ∧ ∃ s', process_router_portforwardings Sample.quiet_env "r1" None
            Sample.agent1_no_gw = (Ok tt, s')
      ∧ calls_since Sample.agent1_no_gw s'
        = [retract_call "r1" Sample.old_pf; iptables_apply "r1"]
      ∧ ri_portforwardings <$> router_info s' !! "r1" = Some []
      ∧ (∀ other, other ≠ "r1" →
           router_info s' !! other = router_info Sample.agent1_no_gw !! other)
      ∧ fullsync s' = fullsync Sample.agent1_no_gw.
Proof.
  assert (H0 : router_info Sample.agent2 !! "r2"
               = Some (Sample.ri_with Sample.r2 [Sample.old_pf]))
    by reflexivity.
  assert (H1 : router_info Sample.agent1_no_gw !! "r1"
               = Some (Sample.ri_with Sample.r1_no_gw [Sample.old_pf]))
    by reflexivity.
  assert (H2 : is_Some (portforwardings Sample.r1_no_gw)) by (by eexists).
  assert (H3 : Forall populated [Sample.old_pf])
    by (repeat constructor; by eexists).
  split.
  { split; [exact H0|]. split; [reflexivity|].
    exact (proj1 (portforwardings_degenerate_branches Sample.quiet_env
                    Sample.agent2 "r2" _ H0) eq_refl (Some Sample.gw)). }
  split; [exact H1|]. split; [exact H2|].
  split; [exact quiet_sample|]. split; [exact H3|].
  exact (proj2 (portforwardings_degenerate_branches Sample.quiet_env
                  Sample.agent1_no_gw "r1" _ H1) H2 quiet_sample H3).
Defined.

Lemma portforwardings_idempotent_witness :
  quiet Sample.quiet_env
  ∧ router_info Sample.agent1 !! "r1"
    = Some (Sample.ri_with Sample.r1 [Sample.old_pf])
  ∧ fixed_ips Sample.gw = Some [ {| ip_address := Some "172.24.4.2" |} ]
  ∧ ∃ s1 ri1,
      process_router_portforwardings Sample.quiet_env "r1" (Some Sample.gw)
        Sample.agent1 = (Ok tt, s1)
      ∧ router_info s1 !! "r1" = Some ri1
      ∧ ri_portforwardings ri1
        = [Sample.pf "10.0.0.6" (Some (Some "172.24.4.2"))]
      ∧ process_router_portforwardings Sample.quiet_env "r1" (Some Sample.gw)
          s1 = (Ok tt, add_calls [iptables_apply "r1"] s1).
Proof.
  assert (H1 : router_info Sample.agent1 !! "r1"
               = Some (Sample.ri_with Sample.r1 [Sample.old_pf]))
    by reflexivity.
  assert (H3 : Forall populated [Sample.old_pf])
    by (repeat constructor; by eexists).
  split; [exact quiet_sample|]. split; [exact H1|]. split; [reflexivity|].
  destruct (portforwardings_idempotent Sample.quiet_env Sample.agent1 "r1"
              _ Sample.gw _ [] [Sample.new_pf] quiet_sample H1 eq_refl
              eq_refl H3)
    as (s1 & ri1 & Hp & Hl & Hs & _ & _ & Hagain & _).
  exists s1, ri1. by repeat split.
Defined.

Lemma portforwardings_replace_on_inside_change_witness :
  quiet Sample.quiet_env
  ∧ router_info Sample.agent1 !! "r1"
    = Some (Sample.ri_with Sample.r1 [Sample.old_pf])
  ∧ diff_list_of_dict
      [Sample.pf "10.0.0.5" (Some (Some "172.24.4.2"))]
      [Sample.pf "10.0.0.6" (Some (Some "172.24.4.2"))]
    = ([Sample.pf "10.0.0.6" (Some (Some "172.24.4.2"))],
       [Sample.pf "10.0.0.5" (Some (Some "172.24.4.2"))])
  ∧ ∃ s', process_router_portforwardings Sample.quiet_env "r1"
            (Some Sample.gw) Sample.agent1 = (Ok tt, s')
      ∧ calls_since Sample.agent1 s'
        = [add_rule "r1" "PREROUTING"
             "-p tcp -d 172.24.4.2 --dport 80 -j DNAT --to 10.0.0.6:8080"
             "portforwarding";
           remove_rule "r1" "PREROUTING"
             "-p tcp -d 172.24.4.2 --dport 80 -j DNAT --to 10.0.0.5:8080";
           iptables_apply "r1"]
      ∧ ri_portforwardings <$> router_info s' !! "r1"
        = Some [Sample.pf "10.0.0.6" (Some (Some "172.24.4.2"))].
Proof.
  assert (H1 : router_info Sample.agent1 !! "r1"
               = Some (Sample.ri_with Sample.r1 [Sample.old_pf]))
    by reflexivity.
  split; [exact quiet_sample|]. split; [exact H1|].
  exact (portforwardings_replace_on_inside_change Sample.quiet_env
           Sample.agent1 "r1" _ Sample.gw "172.24.4.2" [] quiet_sample H1
           eq_refl eq_refl eq_refl).
Defined.

(** ** Router creation *)

(** C2.  A router document with both distributed = true and ha = true
    makes [_create_router] raise DvrHaRouterNotSupported, and so do
    [_router_added] and the creation path [_process_added_router], before
    any collaborator is called and before the registry is written: the
    agent is left exactly as it was, so [router_info] is unchanged and no
    runtime object is stored under that router id. *)
Theorem dvr_ha_router_never_registered env s router_id router :
  distributed router = Some true →
  ha router = Some true →
  _create_router router_id router s
  = (Raise (DvrHaRouterNotSupported router_id), s)
  ∧ _router_added env router_id router s
    = (Raise (DvrHaRouterNotSupported router_id), s)
  ∧ _process_added_router env router s
    = (Raise (DvrHaRouterNotSupported (id router)), s).
Proof.
  intros Hd Hh.
  assert (Hc : ∀ rid, _create_router rid router s
                      = (Raise (DvrHaRouterNotSupported rid), s)).
  { intros rid. unfold _create_router. by rewrite Hd, Hh. }
  split; [apply Hc|]. split.
  - unfold _router_added, bind. by rewrite Hc.
  - unfold _process_added_router, _router_added, bind. by rewrite Hc.
Qed.

Lemma dvr_ha_router_never_registered_witness :
  distributed Sample.r_dvr_ha = Some true
  ∧ ha Sample.r_dvr_ha = Some true
  ∧ _router_added Sample.quiet_env "r9" Sample.r_dvr_ha Sample.agent1
    = (Raise (DvrHaRouterNotSupported "r9"), Sample.agent1)
  ∧ router_info Sample.agent1 !! "r9" = None.
Proof.
  split; [reflexivity|]. split; [reflexivity|]. split; [|reflexivity].
  exact (proj1 (proj2 (dvr_ha_router_never_registered Sample.quiet_env
                         Sample.agent1 "r9" Sample.r_dvr_ha eq_refl eq_refl))).
Defined.

(** ** The compatibility check *)

(** C10.  When [external_network_bridge] is configured and the device
    does not exist, [_process_router_if_compatible] returns normally
    after that single query: it raises nothing (in particular not
    RouterNotCompatibleWithAgent), the registry and every other field of
    the agent are unchanged, and no observer is notified. *)
Theorem missing_bridge_skips_router env s router :
  truthy (external_network_bridge (conf s)) = true →
  env_raises env (trace s) (device_exists (external_network_bridge (conf s)))
  = None →
  env_device_exists env (trace s) (external_network_bridge (conf s)) = false →
  _process_router_if_compatible env router s
  = (Ok tt, add_calls [device_exists (external_network_bridge (conf s))] s).
Proof.
  intros Hb Hr Hd.
  unfold _process_router_if_compatible, bind, get_agent at 1.
  rewrite Hb. unfold call_ret, bind, get_agent, call. rewrite Hr.
  unfold ret. simpl. by rewrite Hd.
Qed.

Lemma missing_bridge_skips_router_witness :
  truthy (external_network_bridge (conf Sample.agent_bridge)) = true
  ∧ env_raises Sample.quiet_env [] (device_exists "br-ex") = None
  ∧ env_device_exists Sample.quiet_env [] "br-ex" = false
  ∧ _process_router_if_compatible Sample.quiet_env Sample.r1_no_gw
      Sample.agent_bridge
    = (Ok tt, add_calls [device_exists "br-ex"] Sample.agent_bridge).
Proof.
  split; [reflexivity|]. split; [reflexivity|]. split; [reflexivity|].
  exact (missing_bridge_skips_router Sample.quiet_env Sample.agent_bridge
           Sample.r1_no_gw eq_refl eq_refl eq_refl).
Defined.

(** ** Start-up *)

Lemma call_ret_ok {A} env c (answer : list Call → A) s :
  env_raises env (trace s) c = None →
  call_ret env c answer s = (Ok (answer (trace s)), add_calls [c] s).
Proof. intros H. unfold call_ret, bind, get_agent, call. by rewrite H. Qed.

Lemma call_ret_raise {A} env c (answer : list Call → A) s f :
  env_raises env (trace s) c = Some f →
  call_ret env c answer s = (Raise (Collab f), add_calls [c] s).
Proof. intros H. unfold call_ret, bind, get_agent, call. by rewrite H. Qed.

(** The loop from any positive [retry_count]. *)
Lemma service_plugin_loop_total env fuel rc s :
  1 ≤ rc → (Z.to_nat rc ≤ fuel)%nat →
  ∃ o s' n, service_plugin_loop env fuel rc s = Some (o, s')
    ∧ (1 ≤ n ≤ Z.to_nat rc)%nat
    ∧ trace s' = trace s ++ replicate n get_service_plugin_list
    ∧ router_info s' = router_info s
    ∧ ((∀ h, env_raises env h get_service_plugin_list = Some MessagingTimeout) →
       o = Raise (Collab MessagingTimeout) ∧ n = Z.to_nat rc)
    ∧ (env_raises env (trace s) get_service_plugin_list ≠ Some MessagingTimeout →
       n = 1%nat).
Proof.
  revert rc s. induction fuel as [|fuel IH]; intros rc s Hrc Hfuel; [lia|].
  simpl.
  destruct (env_raises env (trace s) get_service_plugin_list) as [f|] eqn:Hr.
  - rewrite (call_ret_raise _ _ _ _ _ Hr).
    destruct f as [|ty| |msg].
    + case_bool_decide as Hgt.
      * destruct (IH (rc - 1) (add_calls [get_service_plugin_list] s))
          as (o & s' & n & Hrun & Hn & Htr & Hri & Hall & _); [lia..|].
        exists o, s', (S n). rewrite Hrun. split; [done|].
        split; [lia|]. split.
        { rewrite Htr. simpl. by rewrite <- app_assoc. }
        split; [done|]. split.
        { intros Ht. destruct (Hall Ht) as [-> ->]. split; [done|lia]. }
        intros Hne. by destruct Hne.
      * eexists _, _, 1%nat. split; [done|]. split; [lia|].
        split; [done|]. split; [done|]. split; [|done].
        intros _. split; [done|]. lia.
    + eexists _, _, 1%nat. split; [done|]. split; [lia|].
      split; [done|]. split; [done|]. split; [|done].
      intros Ht. rewrite Ht in Hr. done.
    + eexists _, _, 1%nat. split; [done|]. split; [lia|].
      split; [done|]. split; [done|]. split; [|done].
      intros Ht. rewrite Ht in Hr. done.
    + eexists _, _, 1%nat. split; [done|]. split; [lia|].
      split; [done|]. split; [done|]. split; [|done].
      intros Ht. rewrite Ht in Hr. done.
  - rewrite (call_ret_ok _ _ _ _ Hr).
    eexists _, _, 1%nat. split; [done|]. split; [lia|].
    split; [done|]. split; [done|]. split; [|done].
    intros Ht. rewrite Ht in Hr. done.
Qed.

(** C9.  At start-up the service-plugin query is made at least once and
    at most five times (five iterations of the loop are always enough,
    so the loop ends): it is repeated only after a messaging timeout,
    and when every attempt times out exactly five calls are made and the
    fifth timeout is re-raised instead of a sixth attempt. *)
Theorem service_plugin_list_retried_up_to_5_times env s fuel :
  (5 ≤ fuel)%nat →
  ∃ o s' n, init_service_plugins env fuel s = Some (o, s')
    ∧ (1 ≤ n ≤ 5)%nat
    ∧ calls_since s s' = replicate n get_service_plugin_list
    ∧ ((∀ h, env_raises env h get_service_plugin_list = Some MessagingTimeout) →
       o = Raise (Collab MessagingTimeout) ∧ n = 5%nat)
    ∧ (env_raises env (trace s) get_service_plugin_list ≠ Some MessagingTimeout →
       n = 1%nat).
Proof.
  intros Hfuel. unfold init_service_plugins.
  destruct (service_plugin_loop_total env fuel 5 (with_fullsync true s))
    as (o & s' & n & Hrun & Hn & Htr & _ & Hall & Hone); [lia| |].
  { change (Z.to_nat 5) with 5%nat. lia. }
  exists o, s', n. split; [done|]. split; [exact Hn|].
  split; [|split; [exact Hall|exact Hone]].
  unfold calls_since. rewrite Htr. simpl. by rewrite drop_app_length.
Qed.

Lemma service_plugin_list_retried_up_to_5_times_witness :
  (5 ≤ 5)%nat
  ∧ (∀ h, env_raises Sample.timeout_env h get_service_plugin_list
          = Some MessagingTimeout)
  ∧ ∃ o s' n, init_service_plugins Sample.timeout_env 5 Sample.agent1
              = Some (o, s')
      ∧ calls_since Sample.agent1 s' = replicate n get_service_plugin_list
      ∧ o = Raise (Collab MessagingTimeout) ∧ n = 5%nat.
Proof.
  split; [lia|]. split; [done|].
  destruct (service_plugin_list_retried_up_to_5_times Sample.timeout_env
              Sample.agent1 5 (le_n 5))
    as (o & s' & n & Hrun & _ & Hcalls & Hall & _).
  exists o, s', n. split; [done|]. split; [done|].
  apply Hall. done.
Defined.

(** Six iterations are allowed, five calls are made. *)
Example no_sixth_attempt :
  init_service_plugins Sample.timeout_env 6 Sample.agent1
  = Some (Raise (Collab MessagingTimeout),
          add_calls (replicate 5 get_service_plugin_list)
            (with_fullsync true Sample.agent1)).
Proof. reflexivity. Qed.

(** ** The periodic full sync *)

Lemma with_fullsync_add_calls b cs s :
  with_fullsync b (add_calls cs s) = add_calls cs (with_fullsync b s).
Proof. done. Qed.

(** A loop of two collaborator calls per element, when nothing raises. *)
Lemma for_each_two_calls_quiet {A} env (f g : A → Call) l s :
  quiet env →
  for_each l (λ x, call env (f x) ;;; call env (g x)) s
  = (Ok tt, add_calls (flat_map (λ x, [f x; g x]) l) s).
Proof.
  intros Hq. revert s. induction l as [|x l IH]; intros s; simpl.
  - by rewrite add_calls_nil.
  - unfold bind at 1. unfold bind at 1. rewrite !call_quiet by done.
    rewrite IH, !add_calls_app. done.
Qed.

(** Whatever raises, such a loop only extends the trace, and what it
    raises is a collaborator's fault. *)
Lemma for_each_two_calls_any {A} env (f g : A → Call) l s o s' :
  for_each l (λ x, call env (f x) ;;; call env (g x)) s = (o, s') →
  (∃ cs, s' = add_calls cs s) ∧ (o = Ok tt ∨ ∃ ft, o = Raise (Collab ft)).
Proof.
  revert s. induction l as [|x l IH]; intros s; simpl.
  - intros [= <- <-]. split; [exists []; by rewrite add_calls_nil | by left].
  - unfold bind at 1. unfold bind at 1. unfold call at 1.
    destruct (env_raises env (trace s) (f x)) as [ft|].
    { intros [= <- <-]. split; [by eexists | right; by eexists]. }
    unfold call at 1.
    destruct (env_raises env _ (g x)) as [ft|].
    { intros [= <- <-]. rewrite add_calls_app. split; [by eexists | right; by eexists]. }
    intros H. apply IH in H as [[cs ->] Ho]. rewrite !add_calls_app.
    split; [by eexists | done].
Qed.

Lemma fetch_and_sync_quiet env s :
  quiet env →
  let timestamp := env_now env (trace s) in
  let routers :=
    env_routers env (trace s ++ [utcnow]) (sync_router_ids (conf s)) in
  fetch_and_sync_all_routers env s
  = (Ok tt,
     add_calls
       ([utcnow; get_routers (sync_router_ids (conf s))]
        ++ flat_map (sync_calls timestamp) routers
        ++ flat_map (delete_calls timestamp)
             (elements (dom (router_info s) ∖ list_to_set (id <$> routers))))
       (with_fullsync false s)).
Proof.
  intros Hq timestamp routers.
  unfold fetch_and_sync_all_routers, bind at 1, get_agent at 1.
  unfold bind at 1. rewrite call_ret_ok by apply Hq.
  unfold bind at 1, try_except, fetch_routers, bind at 1, get_agent at 1.
  rewrite call_ret_ok by apply Hq.
  unfold sync_fetched, bind at 1.
  rewrite (for_each_two_calls_quiet env (λ r, keep_router (id r))
             (λ r, queue_add (sync_update timestamp r))) by done.
  unfold bind at 1, set_fullsync.
  rewrite (for_each_two_calls_quiet env keep_router
             (λ rid, queue_add (delete_update timestamp rid))) by done.
  f_equal. rewrite !with_fullsync_add_calls, !add_calls_app.
  reflexivity.
Qed.

Lemma filter_cons_bool {A} (p : A → bool) x l :
  List.filter p (x :: l) = if p x then x :: List.filter p l else List.filter p l.
Proof. done. Qed.

Lemma is_delete_enqueue_delete_update rid timestamp x :
  is_delete_enqueue rid (queue_add (delete_update timestamp x))
  = bool_decide (x = rid).
Proof.
  unfold is_delete_enqueue, delete_update. cbn [u_id u_action].
  rewrite (bool_decide_eq_true_2 (Some DELETE_ROUTER = Some DELETE_ROUTER)) by done.
  apply andb_true_r.
Qed.

Lemma is_delete_enqueue_sync_update rid timestamp r :
  is_delete_enqueue rid (queue_add (sync_update timestamp r)) = false.
Proof.
  unfold is_delete_enqueue, sync_update. cbn [u_id u_action].
  rewrite (bool_decide_eq_false_2 (None = Some DELETE_ROUTER)) by done.
  apply andb_false_r.
Qed.

Lemma filter_sync_calls rid timestamp routers :
  List.filter (is_delete_enqueue rid) (flat_map (sync_calls timestamp) routers)
  = [].
Proof.
  induction routers as [|r l IH]; [done|].
  change (flat_map (sync_calls timestamp) (r :: l))
    with (keep_router (id r) :: queue_add (sync_update timestamp r)
          :: flat_map (sync_calls timestamp) l).
  by rewrite !filter_cons_bool, IH, is_delete_enqueue_sync_update.
Qed.

Lemma filter_delete_calls rid timestamp (l : list string) :
  NoDup l →
  List.filter (is_delete_enqueue rid) (flat_map (delete_calls timestamp) l)
  = if decide (rid ∈ l) then [queue_add (delete_update timestamp rid)] else [].
Proof.
  induction 1 as [|x l Hx Hl IH].
  - destruct (decide (rid ∈ [])) as [Hin|]; [|done].
    by apply not_elem_of_nil in Hin.
  - change (flat_map (delete_calls timestamp) (x :: l))
      with (keep_router x :: queue_add (delete_update timestamp x)
            :: flat_map (delete_calls timestamp) l).
    rewrite !filter_cons_bool, IH, is_delete_enqueue_delete_update.
    change (is_delete_enqueue rid (keep_router x)) with false.
    case_bool_decide as Hxr.
    + subst x. rewrite (decide_True (P := rid ∈ rid :: l)) by left.
      by rewrite (decide_False (P := rid ∈ l)).
    + destruct (decide (rid ∈ l)) as [Hin|Hin].
      * by rewrite (decide_True (P := rid ∈ x :: l)) by (by right).
      * rewrite (decide_False (P := rid ∈ x :: l)); [done|].
        intros [->|?]%elem_of_cons; done.
Qed.

(** C6.  When no collaborator call raises, a full sync returns normally
    and, for every router id: if the id was in the registry before the
    fetch and is absent from the fetched list, exactly one DeleteRouter
    update is enqueued for it, carrying the sync-task priority and the
    pass timestamp, immediately after the keep mark of its namespace; if
    the id is in the fetched list, no DeleteRouter update is enqueued
    for it. *)
Theorem full_sync_deletes_missing_routers env s :
  quiet env →
  let timestamp := env_now env (trace s) in
  let routers :=
    env_routers env (trace s ++ [utcnow]) (sync_router_ids (conf s)) in
  ∃ s', fetch_and_sync_all_routers env s = (Ok tt, s')
    ∧ ∀ rid,
        let update :=
          {| u_id := rid; u_priority := PRIORITY_SYNC_ROUTERS_TASK;
             u_action := Some DELETE_ROUTER; u_router := None;
             u_timestamp := timestamp |} in
        (rid ∈ dom (router_info s) → rid ∉ id <$> routers →
         List.filter (is_delete_enqueue rid) (calls_since s s')
         = [queue_add update]
         ∧ ∃ before after,
             calls_since s s'
             = before ++ [keep_router rid; queue_add update] ++ after)
        ∧ (rid ∈ id <$> routers →
           List.filter (is_delete_enqueue rid) (calls_since s s') = []).
Proof.
  intros Hq timestamp routers.
  eexists. split; [by apply fetch_and_sync_quiet|].
  fold timestamp routers.
  set (gone := elements (dom (router_info s) ∖ list_to_set (id <$> routers))).
  assert (Hcalls : ∀ cs, calls_since s (add_calls cs (with_fullsync false s)) = cs).
  { intros cs. unfold calls_since, add_calls; simpl. by rewrite drop_app_length. }
  rewrite Hcalls.
  assert (Hgone : ∀ rid, rid ∈ gone ↔ rid ∈ dom (router_info s) ∧ rid ∉ id <$> routers).
  { intros rid. unfold gone. rewrite elem_of_elements, elem_of_difference.
    by rewrite elem_of_list_to_set. }
  assert (Hfilter : ∀ rid,
    List.filter (is_delete_enqueue rid)
      ([utcnow; get_routers (sync_router_ids (conf s))]
       ++ flat_map (sync_calls timestamp) routers
       ++ flat_map (delete_calls timestamp) gone)
    = if decide (rid ∈ gone) then [queue_add (delete_update timestamp rid)] else []).
  { intros rid. rewrite !List.filter_app, filter_sync_calls.
    rewrite filter_delete_calls by apply NoDup_elements.
    rewrite !filter_cons_bool. reflexivity. }
  intros rid update.
  change update with (delete_update timestamp rid). clear update. split.
  - intros Hin Hnot. split.
    + rewrite Hfilter, decide_True; [done|]. by apply Hgone.
    + assert (Hg : rid ∈ gone) by (by apply Hgone).
      apply list_elem_of_split in Hg as (l1 & l2 & Hl).
      exists ([utcnow; get_routers (sync_router_ids (conf s))]
              ++ flat_map (sync_calls timestamp) routers
              ++ flat_map (delete_calls timestamp) l1),
             (flat_map (delete_calls timestamp) l2).
      rewrite Hl, flat_map_app.
      change (flat_map (delete_calls timestamp) (rid :: l2))
        with (delete_calls timestamp rid
              ++ flat_map (delete_calls timestamp) l2).
      unfold delete_calls at 2. by rewrite <- !app_assoc.
  - intros Hin. rewrite Hfilter, decide_False; [done|].
    intros Hg%Hgone. by destruct Hg.
Qed.

(** The [else] branch never raises a signal of the agent's own and never
    turns the flag on. *)
Lemma sync_fetched_any env prev timestamp routers s o s' :
  sync_fetched env prev timestamp routers s = (o, s') →
  (fullsync s' = fullsync s ∨ fullsync s' = false)
  ∧ (o = Ok tt ∨ ∃ ft, o = Raise (Collab ft)).
Proof.
  unfold sync_fetched, bind at 1.
  destruct (for_each routers _ s) as [o1 s1] eqn:H1.
  apply for_each_two_calls_any in H1 as [[cs1 ->] Ho1].
  destruct o1 as [[]|e1].
  - unfold bind at 1, set_fullsync. intros H2.
    apply for_each_two_calls_any in H2 as [[cs2 ->] Ho2].
    split; [by right | done].
  - intros [= <- <-]. split; [by left | done].
Qed.

Lemma fetch_and_sync_any env s o s' :
  fetch_and_sync_all_routers env s = (o, s') →
  (fullsync s' = fullsync s ∨ fullsync s' = false ∧ fetch_succeeds env s)
  ∧ (fetch_succeeds env s → o ≠ Raise AbortSyncRouters).
Proof.
  unfold fetch_and_sync_all_routers, bind at 1, get_agent at 1.
  unfold bind at 1, call_ret at 1, bind at 1, get_agent at 1, bind at 1, call at 1.
  unfold fetch_succeeds.
  destruct (env_raises env (trace s) utcnow) as [ft|] eqn:Hnow.
  { intros [= <- <-]. split; [by left | by intros [? _]]. }
  unfold ret at 1. unfold bind at 1, try_except, fetch_routers, bind at 1, get_agent at 1.
  unfold call_ret, bind at 1, get_agent at 1, bind at 1, call at 1.
  change (trace (add_calls [utcnow] s)) with (trace s ++ [utcnow]).
  change (conf (add_calls [utcnow] s)) with (conf s).
  destruct (env_raises env (trace s ++ [utcnow]) _) as [ft|] eqn:Hfetch.
  { destruct (is_MessagingException (Collab ft)); intros [= <- <-];
      (split; [by left | by intros [_ ?]]). }
  unfold ret at 1. intros H.
  apply sync_fetched_any in H as [Hflag Ho]. split.
  - destruct Hflag as [Hflag|Hflag]; [by left | by right].
  - intros _ ->. by destruct Ho as [?|[? ?]].
Qed.

(** C5.  A full sync that starts with the flag set.  (1) If the router
    fetch raises a messaging-layer exception, [fetch_and_sync_all_routers]
    signals AbortSyncRouters and [periodic_sync_routers_task] returns
    normally with the flag still true and nothing enqueued.  (2) If the
    flag is false after the pass, the fetch succeeded.  (3) The pass
    itself never turns the flag on, and after a successful fetch it never
    signals AbortSyncRouters, so failures while enqueuing cannot make the
    caller set the flag again. *)
Theorem full_sync_fetch_failure_keeps_fullsync env s :
  fullsync s = true →
  let ids := sync_router_ids (conf s) in
  let entered := add_calls [process_services_sync; ns_enter] s in
  (∀ ft,
     is_MessagingException (Collab ft) = true →
     env_raises env (trace s) process_services_sync = None →
     env_raises env (trace s ++ [process_services_sync]) ns_enter = None →
     env_raises env (trace entered) utcnow = None →
     env_raises env (trace entered ++ [utcnow]) (get_routers ids) = Some ft →
     env_raises env (trace entered ++ [utcnow; get_routers ids]) (ns_exit true)
     = None →
     fetch_and_sync_all_routers env entered
     = (Raise AbortSyncRouters, add_calls [utcnow; get_routers ids] entered)
     ∧ periodic_sync_routers_task env s
       = (Ok tt,
          add_calls [utcnow; get_routers ids; ns_exit true] entered))
  ∧ (∀ o s', periodic_sync_routers_task env s = (o, s') →
             fullsync s' = false → fetch_succeeds env entered)
  ∧ (∀ s0 o s', fetch_and_sync_all_routers env s0 = (o, s') →
                (fullsync s' = true → fullsync s0 = true)
                ∧ (fetch_succeeds env s0 → o ≠ Raise AbortSyncRouters)).
Proof.
  intros Hfs ids entered. split; [|split].
  - intros ft Hmsg Hpss Henter Hnow Hfetch Hexit.
    assert (Hfas : fetch_and_sync_all_routers env entered
                   = (Raise AbortSyncRouters,
                      add_calls [utcnow; get_routers ids] entered)).
    { unfold fetch_and_sync_all_routers, bind at 1, get_agent at 1.
      unfold bind at 1. rewrite call_ret_ok by done.
      unfold bind at 1, try_except, fetch_routers, bind at 1, get_agent at 1.
      rewrite (call_ret_raise _ _ _ _ ft) by done.
      rewrite Hmsg. unfold raise. by rewrite add_calls_app. }
    split; [exact Hfas|].
    unfold periodic_sync_routers_task, bind at 1, call at 1. rewrite Hpss.
    unfold bind at 1, get_agent at 1.
    change (fullsync (add_calls [process_services_sync] s)) with (fullsync s).
    rewrite Hfs. cbn [negb].
    unfold try_except, with_namespaces_manager, bind at 1, call at 1.
    change (trace (add_calls [process_services_sync] s))
      with (trace s ++ [process_services_sync]).
    rewrite Henter, add_calls_app.
    change (add_calls ([process_services_sync] ++ [ns_enter]) s) with entered.
    rewrite Hfas. unfold bind at 1, call at 1.
    change (trace (add_calls [utcnow; get_routers ids] entered))
      with (trace entered ++ [utcnow; get_routers ids]).
    rewrite Hexit. unfold raise. cbn [is_AbortSyncRouters].
    unfold set_fullsync. f_equal. rewrite add_calls_app.
    unfold with_fullsync, add_calls, entered; simpl. by rewrite Hfs.
  - intros o s'.
    unfold periodic_sync_routers_task, bind at 1, call at 1.
    destruct (env_raises env (trace s) process_services_sync) as [ft|].
    { intros [= <- <-] Hoff. simpl in Hoff. congruence. }
    unfold bind at 1, get_agent at 1.
    change (fullsync (add_calls [process_services_sync] s)) with (fullsync s).
    rewrite Hfs. cbn [negb].
    unfold try_except, with_namespaces_manager, bind at 1, call at 1.
    destruct (env_raises env _ ns_enter) as [ft|].
    { cbn [is_AbortSyncRouters]. intros [= <- <-] Hoff. simpl in Hoff. congruence. }
    rewrite add_calls_app.
    change (add_calls ([process_services_sync] ++ [ns_enter]) s) with entered.
    destruct (fetch_and_sync_all_routers env entered) as [o2 s2] eqn:Hfas.
    apply fetch_and_sync_any in Hfas as [Hflag _].
    assert (Hcase : fullsync s2 = false → fetch_succeeds env entered).
    { intros Hoff. destruct Hflag as [Hflag|[_ ?]]; [|done].
      rewrite Hoff in Hflag. unfold entered in Hflag. simpl in Hflag. congruence. }
    destruct o2 as [[]|e2].
    + unfold call. destruct (env_raises env _ (ns_exit false)).
      * cbn [is_AbortSyncRouters]. intros [= <- <-] Hoff. by apply Hcase.
      * intros [= <- <-] Hoff. by apply Hcase.
    + unfold bind, call. destruct (env_raises env _ (ns_exit true)).
      * cbn [is_AbortSyncRouters]. intros [= <- <-] Hoff. by apply Hcase.
      * unfold raise. destruct (is_AbortSyncRouters e2).
        { unfold set_fullsync. intros [= <- <-] Hoff. simpl in Hoff. done. }
        intros [= <- <-] Hoff. by apply Hcase.
  - intros s0 o s' Hrun. apply fetch_and_sync_any in Hrun as [Hflag Hno].
    split; [|exact Hno].
    intros Hon. destruct Hflag as [Hflag|[Hflag _]]; congruence.
Qed.

Lemma full_sync_deletes_missing_routers_witness :
  quiet Sample.r2_env
  ∧ "r1" ∈ dom (router_info Sample.agent1_fullsync)
  ∧ ("r1" ∉ id <$> [Sample.r2])
  ∧ ("r2" ∈ id <$> [Sample.r2])
  ∧ ∃ s', fetch_and_sync_all_routers Sample.r2_env Sample.agent1_fullsync
          = (Ok tt, s')
      ∧ List.filter (is_delete_enqueue "r1")
          (calls_since Sample.agent1_fullsync s')
        = [queue_add {| u_id := "r1";
                        u_priority := PRIORITY_SYNC_ROUTERS_TASK;
                        u_action := Some DELETE_ROUTER; u_router := None;
                        u_timestamp := 42 |}]
      ∧ List.filter (is_delete_enqueue "r2")
          (calls_since Sample.agent1_fullsync s')
        = [].
Proof.
  assert (Hq : quiet Sample.r2_env) by (intros h c; reflexivity).
  assert (H1 : "r1" ∈ dom (router_info Sample.agent1_fullsync)).
  { apply elem_of_dom. by eexists. }
  assert (H2 : "r1" ∉ id <$> [Sample.r2]).
  { intros H%list_elem_of_singleton. discriminate H. }
  assert (H3 : "r2" ∈ id <$> [Sample.r2]) by (by apply list_elem_of_singleton).
  split; [exact Hq|]. split; [exact H1|]. split; [exact H2|].
  split; [exact H3|].
  destruct (full_sync_deletes_missing_routers Sample.r2_env
              Sample.agent1_fullsync Hq) as (s' & Hrun & Hall).
  exists s'. split; [exact Hrun|]. split.
  - exact (proj1 (proj1 (Hall "r1") H1 H2)).
  - exact (proj2 (Hall "r2") H3).
Defined.

(** The whole pass on the sample: r2 is fetched, r1 has disappeared. *)
Example full_sync_sample_trace :
  calls_since Sample.agent1_fullsync
    (fetch_and_sync_all_routers Sample.r2_env Sample.agent1_fullsync).2
  = [utcnow; get_routers None;
     keep_router "r2";
     queue_add {| u_id := "r2"; u_priority := PRIORITY_SYNC_ROUTERS_TASK;
                  u_action := None; u_router := Some Sample.r2;
                  u_timestamp := 42 |};
     keep_router "r1";
     queue_add {| u_id := "r1"; u_priority := PRIORITY_SYNC_ROUTERS_TASK;
                  u_action := Some DELETE_ROUTER; u_router := None;
                  u_timestamp := 42 |}].
Proof. vm_compute. reflexivity. Qed.

Lemma full_sync_fetch_failure_keeps_fullsync_witness :
  fullsync Sample.agent1_fullsync = true
  ∧ is_MessagingException (Collab MessagingTimeout) = true
  ∧ ∃ s', periodic_sync_routers_task Sample.fetch_fails_env
            Sample.agent1_fullsync = (Ok tt, s')
      ∧ fullsync s' = true
      ∧ calls_since Sample.agent1_fullsync s'
        = [process_services_sync; ns_enter; utcnow; get_routers None;
           ns_exit true].
Proof.
  split; [reflexivity|]. split; [reflexivity|].
  destruct (full_sync_fetch_failure_keeps_fullsync Sample.fetch_fails_env
              Sample.agent1_fullsync eq_refl) as [Hfail _].
  destruct (Hfail MessagingTimeout eq_refl eq_refl eq_refl eq_refl eq_refl
              eq_refl) as [_ Hrun].
  eexists. split; [exact Hrun|]. split; reflexivity.
Defined.

(** ** The worker loop *)

(** An update that asks for deletion and carries no snapshot is the
    removal and nothing else. *)
Lemma delete_update_is_removal_only env u :
  u_action u = Some DELETE_ROUTER → u_router u = None →
  process_one_update env u
  = try_except (_router_removed env (u_id u)) is_Exception
      (λ _, set_fullsync true).
Proof.
  intros Ha Hr. unfold process_one_update, fetch_for_update.
  by rewrite Ha, Hr.
Qed.

(** A failed fetch sets the flag and ends the iteration normally. *)
Lemma fetch_failure_sets_fullsync env u s ft :
  u_action u = None → u_router u = None →
  env_raises env (trace s) utcnow = None →
  env_raises env (trace s ++ [utcnow]) (get_routers (Some [u_id u])) = Some ft →
  process_one_update env u s
  = (Ok tt,
     with_fullsync true (add_calls [utcnow; get_routers (Some [u_id u])] s)).
Proof.
  intros Ha Hr Hnow Hfetch. unfold process_one_update, fetch_for_update.
  rewrite Ha, Hr. unfold bind at 1, try_except at 1, bind at 1.
  rewrite call_ret_ok by done. unfold bind at 1.
  rewrite (call_ret_raise _ _ _ _ ft) by done.
  cbn [is_Exception]. unfold bind, set_fullsync, ret.
  by rewrite add_calls_app.
Qed.

(** Whatever the removal path raises is caught: the iteration ends
    normally, with the flag set when the removal raised. *)
Lemma removal_error_sets_fullsync env u s :
  u_action u = Some DELETE_ROUTER → u_router u = None →
  ∃ s', process_one_update env u s = (Ok tt, s')
    ∧ ∀ e s1, _router_removed env (u_id u) s = (Raise e, s1) →
              s' = with_fullsync true s1.
Proof.
  intros Ha Hr. rewrite delete_update_is_removal_only by done.
  unfold try_except.
  destruct (_router_removed env (u_id u) s) as [[[]|e] s1].
  - eexists. split; [done|]. intros ? ? [=].
  - cbn [is_Exception]. eexists. split; [done|].
    by intros ? ? [= <- <-].
Qed.

(** Whatever the creation or update path raises, other than the
    incompatibility signal, is caught the same way. *)
Lemma process_error_sets_fullsync env u s router e s1 :
  u_router u = Some router →
  _process_router_if_compatible env router s = (Raise e, s1) →
  is_RouterNotCompatibleWithAgent e = false →
  process_one_update env u s = (Ok tt, with_fullsync true s1).
Proof.
  intros Hr Hrun He. unfold process_one_update, fetch_for_update.
  rewrite Hr.
  assert (Hf : (match u_action u with
                | None => ret (Fetched_ (Some router) (u_timestamp u))
                | Some _ => ret (Fetched_ (Some router) (u_timestamp u))
                end) = ret (Fetched_ (Some router) (u_timestamp u)))
    by (by destruct (u_action u)).
  rewrite Hf. unfold bind at 1, ret at 1.
  unfold bind at 1, try_except, bind at 1. rewrite Hrun.
  cbn [is_Exception]. rewrite He. by unfold bind, set_fullsync, ret, when.
Qed.

(** C1.  What the worker does on the removal path.  On the sample agent,
    which knows router r1, an update with action DeleteRouter and an
    update whose fetch returns no router are both processed without
    error (the router leaves the registry, the flag stays clear), and in
    neither case is [fetched_and_processed] called.  The forced removal
    of a router rejected by the compatibility check, which runs the same
    removal procedure, does end with [fetched_and_processed]. *)
Theorem removal_path_skips_fetched_and_processed :
  let worker u := _process_router_update Sample.quiet_env [u] Sample.agent1 in
  let deleted := worker (Sample.update "r1" (Some DELETE_ROUTER) None) in
  let vanished := worker (Sample.update "r1" None None) in
  let rejected := worker (Sample.update "r1" None (Some Sample.r1_no_gw)) in
  (deleted.1 = Ok tt ∧ fullsync deleted.2 = false
   ∧ router_info deleted.2 !! "r1" = None
   ∧ List.filter is_release (calls_since Sample.agent1 deleted.2) = [])
  ∧ (vanished.1 = Ok tt ∧ fullsync vanished.2 = false
     ∧ router_info vanished.2 !! "r1" = None
     ∧ List.filter is_release (calls_since Sample.agent1 vanished.2) = [])
  ∧ (rejected.1 = Ok tt ∧ fullsync rejected.2 = false
     ∧ router_info rejected.2 !! "r1" = None
     ∧ List.filter is_release (calls_since Sample.agent1 rejected.2)
       = [fetched_and_processed "r1" 7]).
Proof. vm_compute. repeat split. Qed.

(** C7.  What the worker does when a removal fails.  The sample agent
    knows r1; the update carries a document of r1 without gateway, which
    the compatibility check rejects, so r1 is force-removed inside the
    handler of the rejection; the collaborator fails while deleting the
    runtime object.  The error leaves [_process_router_update]: the flag
    is not set and the next update of the iteration is not processed.
    The same failure on the direct removal path is caught: the flag is
    set and the iteration goes on to the next update. *)
Theorem forced_removal_error_escapes_worker :
  let updates := [Sample.update "r1" None (Some Sample.r1_no_gw);
                  Sample.update "r1" None (Some Sample.r1)] in
  let forced :=
    _process_router_update Sample.delete_fails_env updates Sample.agent1 in
  let direct :=
    _process_router_update Sample.delete_fails_env
      [Sample.update "r1" (Some DELETE_ROUTER) None;
       Sample.update "r1" None (Some Sample.r1)] Sample.agent1 in
  (forced.1 = Raise (Collab (OtherError "boom"))
   ∧ fullsync forced.2 = false
   ∧ last (calls_since Sample.agent1 forced.2) = Some (ri_delete "r1"))
  ∧ (direct.1 = Ok tt
     ∧ fullsync direct.2 = true
     ∧ last (calls_since Sample.agent1 direct.2)
       = Some (fetched_and_processed "r1" 7)).
Proof. vm_compute. repeat split. Qed.

(** * Further properties of the agent *)

(** ** Sample facts *)

Lemma sample_populated : Forall populated [Sample.old_pf].
Proof. repeat constructor. by eexists. Qed.

Lemma sample_registry_populated : registry_populated Sample.agent1.
Proof.
  intros rid ri H. unfold Sample.agent1, Sample.agent in H.
  cbn [router_info] in H. apply lookup_singleton_Some in H as [_ <-].
  exact sample_populated.
Qed.

(** ** Equations of the monad *)

Lemma get_ri_found rid s ri :
  router_info s !! rid = Some ri → get_ri rid s = (Ok ri, s).
Proof. intros H. unfold get_ri, bind, get_agent. by rewrite H. Qed.

Lemma put_ri_eq rid ri s :
  put_ri rid ri s
  = (Ok tt, with_router_info (<[rid := ri]> (router_info s)) s).
Proof. reflexivity. Qed.

Lemma bind_ok {A B} (m : M A) (k : A → M B) s a s1 :
  m s = (Ok a, s1) → (let* x := m in k x) s = k a s1.
Proof. intros H. unfold bind. by rewrite H. Qed.

Lemma fullsync_add_calls cs s : fullsync (add_calls cs s) = fullsync s.
Proof. reflexivity. Qed.

Lemma trace_add_calls cs s : trace (add_calls cs s) = trace s ++ cs.
Proof. reflexivity. Qed.

(** ** Invariants of runs *)

Section Keeps.
Context {A B : Type} (I : Agent → Prop).

Lemma keeps_ret (a : A) : keeps I (ret a).
Proof. by intros s. Qed.

Lemma keeps_raise e : keeps I (raise (A := A) e).
Proof. by intros s. Qed.

Lemma keeps_bind (m : M A) (k : A → M B) :
  keeps I m → (∀ a, keeps I (k a)) → keeps I (bind m k).
Proof.
  intros Hm Hk s Hs. specialize (Hm s Hs). unfold bind.
  destruct (m s) as [[a|e] s1]; simpl in *; [by apply Hk | done].
Qed.

Lemma keeps_bind_get_agent (k : Agent → M B) :
  (∀ s0, I s0 → keeps I (k s0)) → keeps I (bind get_agent k).
Proof. intros Hk s Hs. unfold bind, get_agent. by apply Hk. Qed.

Lemma keeps_bind_get_ri rid (k : RouterInfo → M B) :
  (∀ ri s0, I s0 → router_info s0 !! rid = Some ri → keeps I (k ri)) →
  keeps I (bind (get_ri rid) k).
Proof.
  intros Hk s Hs. unfold bind, get_ri, bind, get_agent.
  destruct (router_info s !! rid) as [ri|] eqn:Hri; simpl; [|done].
  by eapply Hk.
Qed.

Lemma keeps_try_except (m : M A) handles (h : Exn → M A) :
  keeps I m → (∀ e, keeps I (h e)) → keeps I (try_except m handles h).
Proof.
  intros Hm Hh s Hs. specialize (Hm s Hs). unfold try_except.
  destruct (m s) as [[a|e] s1]; simpl in *; [done|].
  destruct (handles e); [by apply Hh | done].
Qed.

End Keeps.

Lemma keeps_for_each {A} I (l : list A) (body : A → M unit) :
  (∀ x, keeps I (body x)) → keeps I (for_each l body).
Proof.
  intros Hb. induction l as [|x l IH]; simpl; [apply keeps_ret|].
  apply keeps_bind; [apply Hb | by intros _].
Qed.

Lemma keeps_bind_ret {A B} I (a : A) (k : A → M B) :
  keeps I (k a) → keeps I (bind (ret a) k).
Proof. intros Hk s Hs. by apply Hk. Qed.

Lemma keeps_bind_raise {A B} I e (k : A → M B) : keeps I (bind (raise e) k).
Proof. by intros s Hs. Qed.

Lemma keeps_when I b (m : M unit) : keeps I m → keeps I (when b m).
Proof. intros Hm. destruct b; [done | apply keeps_ret]. Qed.

Lemma keeps_get_agent I : keeps I get_agent.
Proof. by intros s. Qed.

Lemma keeps_call I env c : trace_blind I → keeps I (call env c).
Proof.
  intros Hb s Hs. unfold call.
  destruct (env_raises env (trace s) c); simpl; by apply Hb.
Qed.

Lemma keeps_call_ret {A} I env c (answer : list Call → A) :
  trace_blind I → keeps I (call_ret env c answer).
Proof.
  intros Hb. unfold call_ret. apply keeps_bind_get_agent. intros s0 _.
  apply keeps_bind; [by apply keeps_call | intros _; apply keeps_ret].
Qed.

(** One step of a proof that a method keeps an invariant; [leaf] closes
    the steps that depend on the invariant. *)
Ltac keeps_structure :=
  idtac;
  lazymatch goal with
  | |- keeps _ (ret _) => apply keeps_ret
  | |- keeps _ (raise _) => apply keeps_raise
  | |- keeps _ get_agent => apply keeps_get_agent
  | |- keeps _ (when _ _) => apply keeps_when
  | |- keeps _ (for_each _ _) => apply keeps_for_each; intros ?
  | |- keeps _ (try_except _ _ _) => apply keeps_try_except; [|intros ?]
  | |- keeps _ (bind (ret _) _) => apply keeps_bind_ret
  | |- keeps _ (bind (raise _) _) => apply keeps_bind_raise
  | |- keeps _ (bind (if ?c then _ else _) _) => destruct c eqn:?
  | |- keeps _ (bind (get_ri _) _) =>
      apply keeps_bind_get_ri; intros ? ? ? ?
  | |- keeps _ (bind get_agent _) => apply keeps_bind_get_agent; intros ? ?
  | |- keeps _ (bind _ _) => apply keeps_bind; [|intros ?]
  | |- keeps _ (match ?x with _ => _ end) => destruct x eqn:?
  | |- keeps _ (let _ := _ in _) => cbv zeta
  end.
Ltac keeps_step leaf := first [ leaf | keeps_structure ].
Ltac keeps_go leaf := repeat keeps_step leaf.

(** *** Invariants of the reconciliation methods *)

(** An invariant [I] that survives the collaborator calls in [allowed],
    the update of the cached external network, and the writing of a
    [good] runtime object under a router id in [touch], is kept by every
    method that reconciles a router in [touch]. *)
Section Reconcile.
Variables (env : Env) (I : Agent → Prop).
Variables (touch : string → Prop) (allowed : Call → Prop).
Variable good : RouterInfo → Prop.
Hypothesis Hcall : ∀ c, allowed c → keeps I (call env c).
Hypothesis Hnr : ∀ c, is_release c = false → allowed c.
Hypothesis Htarget : ∀ v s, I s → I (with_target_ex_net_id v s).
Hypothesis Hput : ∀ rid ri s,
  touch rid → good ri → I s →
  I (with_router_info (<[rid := ri]> (router_info s)) s).
Hypothesis Hdel : ∀ rid s,
  touch rid → I s → I (with_router_info (delete rid (router_info s)) s).
Hypothesis Hread : ∀ rid ri s, I s → router_info s !! rid = Some ri → good ri.
Hypothesis Hgood_router : ∀ r ri, good ri → good (set_ri_router r ri).
Hypothesis Hgood_cache : ∀ g sn en ri, good ri → good (set_ri_cache g sn en ri).
Hypothesis Hgood_pf : ∀ l ri,
  Forall populated l → good ri → good (set_ri_portforwardings l ri).
Hypothesis Hgood_new : ∀ v rid r, good (new_router_info v rid r).

Lemma call_ret_keeps {A} c (answer : list Call → A) :
  allowed c → keeps I (call_ret env c answer).
Proof.
  intros Hc. unfold call_ret. apply keeps_bind_get_agent. intros s0 _.
  apply keeps_bind; [by apply Hcall | intros _; apply keeps_ret].
Qed.

Lemma put_ri_keeps rid ri : touch rid → good ri → keeps I (put_ri rid ri).
Proof. intros Ht Hg s Hs. by apply Hput. Qed.

Lemma del_ri_keeps {B} rid (k : unit → M B) :
  touch rid → keeps I (k tt) →
  keeps I (let* s' := get_agent in
           let* x := match router_info s' !! rid with
                     | None => raise (KeyError rid)
                     | Some _ => set_router_info (delete rid (router_info s'))
                     end in
           k x).
Proof.
  intros Ht Hk s Hs. unfold bind, get_agent.
  destruct (router_info s !! rid); simpl; [|done].
  apply Hk. by apply Hdel.
Qed.

Ltac good_leaf :=
  repeat first
    [ eassumption
    | apply Hgood_router | apply Hgood_cache | apply Hgood_new
    | apply Hgood_pf; [first [ eapply populate_populated; eassumption
                             | constructor ] |]
    | eapply Hread; eassumption ].

Ltac reconcile_leaf :=
  idtac;
  lazymatch goal with
  | |- keeps _ (call _ _) => apply Hcall; apply Hnr; reflexivity
  | |- keeps _ (call_ret _ _ _) => apply call_ret_keeps; apply Hnr; reflexivity
  | |- keeps _ (put_ri _ _) => apply put_ri_keeps; [assumption | good_leaf]
  | |- keeps _ (set_target_ex_net_id _) => intros ? ?; by apply Htarget
  | |- keeps _ (bind get_agent _) => apply del_ri_keeps; [assumption|]
  end.

Lemma _update_portforwardings_keeps rid op p :
  keeps I (_update_portforwardings env rid op p).
Proof. unfold _update_portforwardings. keeps_go reconcile_leaf. Qed.

Ltac reconcile_leaf1 :=
  first [ reconcile_leaf | apply _update_portforwardings_keeps ].

Lemma process_router_portforwardings_keeps rid gw :
  touch rid → keeps I (process_router_portforwardings env rid gw).
Proof.
  intros Ht. unfold process_router_portforwardings.
  keeps_go reconcile_leaf1.
Qed.

Ltac reconcile_leaf2 :=
  first [ reconcile_leaf
        | apply process_router_portforwardings_keeps; assumption ].

Lemma process_router_keeps rid : touch rid → keeps I (process_router env rid).
Proof. intros Ht. unfold process_router. keeps_go reconcile_leaf2. Qed.

Ltac reconcile_leaf3 :=
  first [ reconcile_leaf | apply process_router_keeps; assumption ].

Lemma _router_removed_keeps rid :
  touch rid → keeps I (_router_removed env rid).
Proof. intros Ht. unfold _router_removed. keeps_go reconcile_leaf3. Qed.

Lemma _router_added_keeps rid router :
  touch rid → keeps I (_router_added env rid router).
Proof.
  intros Ht. unfold _router_added, _create_router. keeps_go reconcile_leaf3.
Qed.

Lemma _fetch_external_net_id_keeps force :
  keeps I (_fetch_external_net_id env force).
Proof. unfold _fetch_external_net_id. keeps_go reconcile_leaf. Qed.

Ltac reconcile_leaf4 :=
  first [ reconcile_leaf3
        | apply _router_added_keeps; assumption
        | apply _fetch_external_net_id_keeps ].

Lemma _process_added_router_keeps router :
  touch (id router) → keeps I (_process_added_router env router).
Proof. intros Ht. unfold _process_added_router. keeps_go reconcile_leaf4. Qed.

Lemma _process_updated_router_keeps router :
  touch (id router) → keeps I (_process_updated_router env router).
Proof. intros Ht. unfold _process_updated_router. keeps_go reconcile_leaf4. Qed.

Ltac reconcile_leaf5 :=
  first [ reconcile_leaf4
        | apply _process_added_router_keeps; assumption
        | apply _process_updated_router_keeps; assumption ].

Lemma _process_router_if_compatible_keeps router :
  touch (id router) → keeps I (_process_router_if_compatible env router).
Proof.
  intros Ht. unfold _process_router_if_compatible. keeps_go reconcile_leaf5.
Qed.

(** The worker loop adds the release call and the setting of the flag. *)
Hypothesis Hflag : ∀ s, I s → I (with_fullsync true s).
Hypothesis Hrel : ∀ rid ts, allowed (fetched_and_processed rid ts).
Hypothesis Htouch : ∀ rid, touch rid.

Ltac worker_leaf :=
  idtac;
  lazymatch goal with
  | |- keeps _ (set_fullsync true) => intros ? ?; by apply Hflag
  | |- keeps _ (call _ (fetched_and_processed _ _)) => apply Hcall, Hrel
  | |- keeps _ (_router_removed _ _) => apply _router_removed_keeps, Htouch
  | |- keeps _ (_process_router_if_compatible _ _) =>
      apply _process_router_if_compatible_keeps, Htouch
  | |- keeps _ _ => reconcile_leaf
  end.

Lemma fetch_for_update_keeps update : keeps I (fetch_for_update env update).
Proof. unfold fetch_for_update. keeps_go worker_leaf. Qed.

Lemma process_one_update_keeps update :
  keeps I (process_one_update env update).
Proof.
  unfold process_one_update.
  apply keeps_bind; [apply fetch_for_update_keeps | intros f].
  keeps_go worker_leaf.
Qed.

Lemma _process_router_update_keeps updates :
  keeps I (_process_router_update env updates).
Proof.
  unfold _process_router_update. apply keeps_for_each. intros u.
  apply process_one_update_keeps.
Qed.

End Reconcile.

(** *** Invariants of the full sync *)

Section Sync.
Variables (env : Env) (I : Agent → Prop).
Hypothesis Hblind : trace_blind I.
Hypothesis Hclear : ∀ s, I s → I (with_fullsync false s).
Hypothesis Hset : ∀ s, I s → I (with_fullsync true s).

Ltac sync_leaf :=
  idtac;
  lazymatch goal with
  | |- keeps _ (call _ _) => by apply keeps_call
  | |- keeps _ (call_ret _ _ _) => by apply keeps_call_ret
  | |- keeps _ (set_fullsync false) => intros ? ?; by apply Hclear
  | |- keeps _ (set_fullsync true) => intros ? ?; by apply Hset
  end.

Lemma sync_fetched_keeps prev timestamp routers :
  keeps I (sync_fetched env prev timestamp routers).
Proof. unfold sync_fetched. keeps_go sync_leaf. Qed.

Lemma fetch_and_sync_all_routers_keeps :
  keeps I (fetch_and_sync_all_routers env).
Proof.
  unfold fetch_and_sync_all_routers, fetch_routers.
  keeps_go ltac:(first [sync_leaf | apply sync_fetched_keeps]).
Qed.

Lemma with_namespaces_manager_keeps body :
  keeps I body → keeps I (with_namespaces_manager env body).
Proof.
  intros Hb. unfold with_namespaces_manager.
  apply keeps_bind; [by apply keeps_call | intros _].
  intros s Hs. specialize (Hb s Hs).
  destruct (body s) as [[[]|e] s1]; simpl in *.
  - by apply keeps_call.
  - assert (Hk : keeps I (call env (ns_exit true) ;;; raise (A := unit) e)).
    { apply keeps_bind; [by apply keeps_call | intros _; apply keeps_raise]. }
    by apply Hk.
Qed.

Lemma periodic_sync_routers_task_keeps :
  keeps I (periodic_sync_routers_task env).
Proof.
  unfold periodic_sync_routers_task.
  keeps_go ltac:(first [ sync_leaf
                       | apply with_namespaces_manager_keeps,
                           fetch_and_sync_all_routers_keeps ]).
Qed.

End Sync.

(** *** The flag *)

Section Flag.
Variables (env : Env) (b : bool).
Let I : Agent → Prop := λ s, fullsync s = b.
Let touch : string → Prop := λ _, True.
Let allowed : Call → Prop := λ _, True.
Let good : RouterInfo → Prop := λ _, True.

Lemma flag_call c : allowed c → keeps I (call env c).
Proof. intros _. apply keeps_call. by intros cs s'. Qed.

Lemma _process_router_if_compatible_keeps_flag router :
  keeps I (_process_router_if_compatible env router).
Proof.
  by apply (_process_router_if_compatible_keeps env I touch allowed good);
    try done; apply flag_call.
Qed.

Lemma _router_removed_keeps_flag rid : keeps I (_router_removed env rid).
Proof.
  by apply (_router_removed_keeps env I touch allowed good);
    try done; apply flag_call.
Qed.

End Flag.

Lemma _process_router_update_keeps_flag env updates :
  keeps (λ s, fullsync s = true) (_process_router_update env updates).
Proof.
  apply (_process_router_update_keeps env _ (λ _, True) (λ _, True)
           (λ _, True)); try done.
  intros c _. apply keeps_call. by intros cs s'.
Qed.

(** X1.  The worker never clears the full-sync flag.  The compatibility
    check with the creation or update it dispatches to, and the removal
    of a router, leave the flag exactly as they found it, whether they
    return or raise; and a run of [_process_router_update] over any
    updates that starts with the flag set ends with the flag set. *)
Theorem worker_only_sets_fullsync env s :
  (∀ router,
     fullsync (_process_router_if_compatible env router s).2 = fullsync s)
  ∧ (∀ rid, fullsync (_router_removed env rid s).2 = fullsync s)
  ∧ (∀ updates, fullsync s = true →
                fullsync (_process_router_update env updates s).2 = true).
Proof.
  split; [|split].
  - intros router.
    by apply (_process_router_if_compatible_keeps_flag env (fullsync s)).
  - intros rid. by apply (_router_removed_keeps_flag env (fullsync s)).
  - intros updates Hs. by apply (_process_router_update_keeps_flag env).
Qed.

Lemma worker_only_sets_fullsync_witness :
  fullsync Sample.agent1_fullsync = true
  ∧ fullsync (_process_router_update Sample.quiet_env
                [Sample.update "r1" (Some DELETE_ROUTER) None]
                Sample.agent1_fullsync).2 = true.
Proof.
  split; [reflexivity|].
  apply (proj2 (proj2 (worker_only_sets_fullsync Sample.quiet_env
                         Sample.agent1_fullsync))).
  reflexivity.
Defined.

(** *** The entries of other routers *)

Section Entry.
Variables (env : Env) (other : string) (v : option RouterInfo).
Let I : Agent → Prop := λ s, router_info s !! other = v.
Let touch : string → Prop := λ rid, rid ≠ other.
Let allowed : Call → Prop := λ _, True.
Let good : RouterInfo → Prop := λ _, True.

Lemma entry_call c : allowed c → keeps I (call env c).
Proof. intros _. apply keeps_call. by intros cs s'. Qed.

Lemma entry_put rid ri s :
  touch rid → good ri → I s →
  I (with_router_info (<[rid := ri]> (router_info s)) s).
Proof. intros Ht _ Hs. unfold I. simpl. by rewrite lookup_insert_ne. Qed.

Lemma entry_del rid s :
  touch rid → I s → I (with_router_info (delete rid (router_info s)) s).
Proof. intros Ht Hs. unfold I. simpl. by rewrite lookup_delete_ne. Qed.

Lemma _process_router_if_compatible_keeps_entry router :
  id router ≠ other → keeps I (_process_router_if_compatible env router).
Proof.
  intros Hne.
  apply (_process_router_if_compatible_keeps env I touch allowed good);
    first [ apply entry_call | apply entry_put | apply entry_del | done ].
Qed.

Lemma _router_removed_keeps_entry rid :
  rid ≠ other → keeps I (_router_removed env rid).
Proof.
  intros Hne.
  apply (_router_removed_keeps env I touch allowed good);
    first [ apply entry_call | apply entry_put | apply entry_del | done ].
Qed.

Lemma process_router_keeps_entry rid :
  rid ≠ other → keeps I (process_router env rid).
Proof.
  intros Hne.
  apply (process_router_keeps env I touch allowed good);
    first [ apply entry_call | apply entry_put | apply entry_del | done ].
Qed.

End Entry.

(** X2.  Reconciling one router leaves the registry entry of every
    other router as it was: [_process_router_if_compatible],
    [_router_removed] and [process_router] for a router id different
    from [other] end, whether they return or raise, with the entry of
    [other] unchanged (present with the same runtime object, or
    absent). *)
Theorem reconciliation_touches_one_router env s other :
  (∀ router, id router ≠ other →
     router_info (_process_router_if_compatible env router s).2 !! other
     = router_info s !! other)
  ∧ (∀ rid, rid ≠ other →
       router_info (_router_removed env rid s).2 !! other
       = router_info s !! other)
  ∧ (∀ rid, rid ≠ other →
       router_info (process_router env rid s).2 !! other
       = router_info s !! other).
Proof.
  split; [|split].
  - intros router Hne.
    by apply (_process_router_if_compatible_keeps_entry env other
                (router_info s !! other)).
  - intros rid Hne.
    by apply (_router_removed_keeps_entry env other (router_info s !! other)).
  - intros rid Hne.
    by apply (process_router_keeps_entry env other (router_info s !! other)).
Qed.

Lemma reconciliation_touches_one_router_witness :
  (id Sample.r1 ≠ "r2")
  ∧ router_info (_process_router_if_compatible Sample.quiet_env Sample.r1
                   Sample.agent2).2 !! "r2"
    = router_info Sample.agent2 !! "r2".
Proof.
  assert (H : id Sample.r1 ≠ "r2") by discriminate.
  split; [exact H|].
  exact (proj1 (reconciliation_touches_one_router Sample.quiet_env
                  Sample.agent2 "r2") Sample.r1 H).
Defined.

(** *** Stored entries carry their outside address *)

Section Populated.
Variable env : Env.
Let touch : string → Prop := λ _, True.
Let allowed : Call → Prop := λ _, True.
Let good : RouterInfo → Prop :=
  λ ri, Forall populated (ri_portforwardings ri).

Lemma populated_blind : trace_blind registry_populated.
Proof. by intros cs s. Qed.

Lemma populated_put rid ri s :
  touch rid → good ri → registry_populated s →
  registry_populated (with_router_info (<[rid := ri]> (router_info s)) s).
Proof.
  intros _ Hg Hs rid' ri'. simpl. rewrite lookup_insert.
  case_decide; [by intros [= <-] | apply Hs].
Qed.

Lemma populated_del rid s :
  touch rid → registry_populated s →
  registry_populated (with_router_info (delete rid (router_info s)) s).
Proof.
  intros _ Hs rid' ri'. simpl. rewrite lookup_delete.
  case_decide; [done | apply Hs].
Qed.

Lemma _process_router_update_keeps_populated updates :
  keeps registry_populated (_process_router_update env updates).
Proof.
  apply (_process_router_update_keeps env _ touch allowed good);
    first [ by intros c _; apply keeps_call, populated_blind
          | apply populated_put
          | apply populated_del
          | by intros rid ri s Hs Hri; eapply Hs
          | by intros l ri Hl _
          | by intros; constructor
          | done ].
Qed.

End Populated.

(** X3.  If every stored port-forward entry of every registered router
    carries its 'outside_addr', the same holds after
    [_process_router_update] has processed any updates, whatever the
    collaborators raise: the worker stores only entries it has given an
    outside address. *)
Theorem worker_keeps_registry_populated env updates s :
  registry_populated s →
  registry_populated (_process_router_update env updates s).2.
Proof.
  intros Hs. by apply _process_router_update_keeps_populated.
Qed.

Lemma worker_keeps_registry_populated_witness :
  registry_populated Sample.agent1
  ∧ registry_populated
      (_process_router_update Sample.quiet_env
         [Sample.update "r1" None (Some Sample.r1)] Sample.agent1).2.
Proof.
  split; [exact sample_registry_populated|].
  exact (worker_keeps_registry_populated Sample.quiet_env _ Sample.agent1
           sample_registry_populated).
Defined.

(** *** The registry during a full sync *)

(** X4.  The periodic task never changes the registry: whatever happens
    during [periodic_sync_routers_task], [router_info] is afterwards what
    it was, the routers being added and removed later by the worker.
    With the full-sync flag off the task is the single call
    [process_services_sync]. *)
Theorem full_sync_leaves_registry env s :
  router_info (periodic_sync_routers_task env s).2 = router_info s
  ∧ (fullsync s = false →
     periodic_sync_routers_task env s = call env process_services_sync s).
Proof.
  split.
  - apply (periodic_sync_routers_task_keeps env
             (λ s', router_info s' = router_info s));
      first [ done | by intros cs s' | by intros s' ].
  - intros Hoff. unfold periodic_sync_routers_task, bind, call, get_agent.
    destruct (env_raises env (trace s) process_services_sync); [done|].
    simpl. by rewrite Hoff.
Qed.

Lemma full_sync_leaves_registry_witness :
  fullsync Sample.agent1 = false
  ∧ periodic_sync_routers_task Sample.quiet_env Sample.agent1
    = call Sample.quiet_env process_services_sync Sample.agent1.
Proof.
  split; [reflexivity|].
  exact (proj2 (full_sync_leaves_registry Sample.quiet_env Sample.agent1)
           eq_refl).
Defined.

(** *** What the methods raise *)

Lemma raises_only_ret {A} C (a : A) : raises_only C (ret a).
Proof. by intros s e. Qed.

Lemma raises_only_raise {A} (C : Exn → Prop) e :
  C e → raises_only C (raise (A := A) e).
Proof. by intros He s e' [= <-]. Qed.

Lemma raises_only_get_agent C : raises_only C get_agent.
Proof. by intros s e. Qed.

Lemma raises_only_bind {A B} C (m : M A) (k : A → M B) :
  raises_only C m → (∀ a, raises_only C (k a)) → raises_only C (bind m k).
Proof.
  intros Hm Hk s e. specialize (Hm s). unfold bind.
  destruct (m s) as [[a|e'] s1]; simpl in *; [apply Hk | intros [= <-]; by apply Hm].
Qed.

Lemma raises_only_try_except {A} C (m : M A) handles (h : Exn → M A) :
  raises_only C m →
  (∀ e, handles e = true → raises_only C (h e)) →
  raises_only C (try_except m handles h).
Proof.
  intros Hm Hh s e. specialize (Hm s). unfold try_except.
  destruct (m s) as [[a|e'] s1]; simpl in *; [done|].
  destruct (handles e') eqn:He'; [by apply Hh|].
  intros [= <-]. by apply Hm.
Qed.

Lemma raises_only_for_each {A} C (l : list A) (body : A → M unit) :
  (∀ x, raises_only C (body x)) → raises_only C (for_each l body).
Proof.
  intros Hb. induction l as [|x l IH]; simpl; [apply raises_only_ret|].
  apply raises_only_bind; [apply Hb | by intros _].
Qed.

Lemma raises_only_when C b (m : M unit) :
  raises_only C m → raises_only C (when b m).
Proof. intros Hm. destruct b; [done | apply raises_only_ret]. Qed.

Lemma raises_only_call (C : Exn → Prop) env c :
  (∀ f, C (Collab f)) → raises_only C (call env c).
Proof.
  intros HC s e. unfold call.
  destruct (env_raises env (trace s) c); simpl; [intros [= <-]; apply HC | done].
Qed.

Lemma raises_only_call_ret {A} (C : Exn → Prop) env c (answer : list Call → A) :
  (∀ f, C (Collab f)) → raises_only C (call_ret env c answer).
Proof.
  intros HC. unfold call_ret.
  apply raises_only_bind; [apply raises_only_get_agent | intros s0].
  apply raises_only_bind; [by apply raises_only_call | intros _].
  apply raises_only_ret.
Qed.

Lemma raises_only_get_ri (C : Exn → Prop) rid :
  C (KeyError rid) → raises_only C (get_ri rid).
Proof.
  intros HC s e. unfold get_ri, bind, get_agent.
  destruct (router_info s !! rid); simpl; [done | by intros [= <-]].
Qed.

Lemma raises_only_put_ri C rid ri : raises_only C (put_ri rid ri).
Proof. by intros s e. Qed.

Lemma populate_raises gw l e :
  populate gw l = Raise e → e = TypeError ∨ e = IndexError.
Proof.
  induction l as [|p l IH]; simpl; [done|].
  unfold first_fixed_ip. destruct (fixed_ips gw) as [[|f fs]|].
  - intros [= <-]. by right.
  - destruct (populate gw l); [done|]. intros [= <-]. by apply IH.
  - intros [= <-]. by left.
Qed.

Lemma rule_in_raises p e : rule_in p = Raise e → e = KeyError "outside_addr".
Proof. unfold rule_in. destruct (outside_addr p); [done | by intros [= <-]]. Qed.

Ltac raises_structure :=
  idtac;
  lazymatch goal with
  | |- raises_only _ (ret _) => apply raises_only_ret
  | |- raises_only _ get_agent => apply raises_only_get_agent
  | |- raises_only _ (when _ _) => apply raises_only_when
  | |- raises_only _ (for_each _ _) => apply raises_only_for_each; intros ?
  | |- raises_only _ (put_ri _ _) => apply raises_only_put_ri
  | |- raises_only _ (set_router_info _) => by intros ? ?
  | |- raises_only _ (set_target_ex_net_id _) => by intros ? ?
  | |- raises_only _ (bind _ _) => apply raises_only_bind; [|intros ?]
  | |- raises_only _ (match ?x with _ => _ end) => destruct x eqn:?
  | |- raises_only _ (let _ := _ in _) => cbv zeta
  end.
Ltac raises_go leaf := repeat first [ leaf | raises_structure ].

(** The reconciliation methods raise collaborator faults and built-in
    errors, never one of the agent's own signals. *)
Section NoSignal.
Variable env : Env.

Ltac signal_leaf :=
  idtac;
  lazymatch goal with
  | |- raises_only _ (call _ _) => by apply raises_only_call
  | |- raises_only _ (call_ret _ _ _) => by apply raises_only_call_ret
  | |- raises_only _ (get_ri _) => by apply raises_only_get_ri
  | H : populate _ _ = Raise ?e |- raises_only _ (raise ?e) =>
      apply raises_only_raise; by destruct (populate_raises _ _ _ H) as [->| ->]
  | H : rule_in _ = Raise ?e |- raises_only _ (raise ?e) =>
      apply raises_only_raise; by rewrite (rule_in_raises _ _ H)
  | |- raises_only _ (raise _) => by apply raises_only_raise
  end.

Lemma _update_portforwardings_no_signal rid op p :
  raises_only not_a_signal (_update_portforwardings env rid op p).
Proof. unfold _update_portforwardings. raises_go signal_leaf. Qed.

Ltac signal_leaf1 :=
  first [ signal_leaf | apply _update_portforwardings_no_signal ].

Lemma process_router_portforwardings_no_signal rid gw :
  raises_only not_a_signal (process_router_portforwardings env rid gw).
Proof. unfold process_router_portforwardings. raises_go signal_leaf1. Qed.

Ltac signal_leaf2 :=
  first [ signal_leaf | apply process_router_portforwardings_no_signal ].

Lemma process_router_no_signal rid :
  raises_only not_a_signal (process_router env rid).
Proof. unfold process_router. raises_go signal_leaf2. Qed.

Ltac signal_leaf3 := first [ signal_leaf | apply process_router_no_signal ].

Lemma _router_removed_no_signal rid :
  raises_only not_a_signal (_router_removed env rid).
Proof. unfold _router_removed. raises_go signal_leaf3. Qed.

Lemma _router_added_no_signal rid router :
  raises_only not_a_signal (_router_added env rid router).
Proof. unfold _router_added, _create_router. raises_go signal_leaf3. Qed.

Lemma _fetch_external_net_id_no_signal force :
  raises_only not_a_signal (_fetch_external_net_id env force).
Proof.
  unfold _fetch_external_net_id. raises_go signal_leaf.
  apply raises_only_try_except.
  - raises_go signal_leaf.
  - intros e He. destruct e as [[]| | | | | | |]; try done.
    raises_go signal_leaf.
Qed.

Ltac signal_leaf4 :=
  first [ signal_leaf3 | apply _router_added_no_signal ].

Lemma _process_added_router_no_signal router :
  raises_only not_a_signal (_process_added_router env router).
Proof. unfold _process_added_router. raises_go signal_leaf4. Qed.

Lemma _process_updated_router_no_signal router :
  raises_only not_a_signal (_process_updated_router env router).
Proof. unfold _process_updated_router. raises_go signal_leaf4. Qed.

End NoSignal.

(** *** Outcomes *)

Lemma post_bind {A B} (m : M A) (k : A → M B) s Q :
  post m s (λ o s1, match o with
                    | Ok a => post (k a) s1 Q
                    | Raise e => Q (Raise e) s1
                    end) →
  post (bind m k) s Q.
Proof. unfold post, bind. by destruct (m s) as [[a|e] s1]. Qed.

Lemma post_mono {A} (m : M A) s (Q Q' : Outcome A → Agent → Prop) :
  post m s Q → (∀ o s', Q o s' → Q' o s') → post m s Q'.
Proof. unfold post. auto. Qed.

Lemma post_keeps_raises {A} I C (m : M A) s :
  keeps I m → raises_only C m → I s →
  post m s (λ o s', I s' ∧ ∀ e, o = Raise e → C e).
Proof. intros Hk Hr Hs. split; [by apply Hk | apply Hr]. Qed.

Lemma not_a_signal_incompatible rid :
  ¬ not_a_signal (RouterNotCompatibleWithAgent rid).
Proof. by intros [? _]. Qed.

(** The compatibility check up to the dispatch leaves the registry
    alone. *)
Lemma _fetch_external_net_id_keeps_registry env m force :
  keeps (λ s, router_info s = m) (_fetch_external_net_id env force).
Proof.
  apply (_fetch_external_net_id_keeps env _ (λ _, True));
    first [ done | by intros c _; apply keeps_call; intros cs s ].
Qed.

(** X5.  When [_process_router_if_compatible] raises
    RouterNotCompatibleWithAgent, the exception names the router that
    was checked and the registry is as it was before the call: the
    signal comes from the check itself, before anything is created or
    updated, never from the creation or update that follows. *)
Theorem incompatibility_signal_comes_from_the_check env router s rid :
  (_process_router_if_compatible env router s).1
  = Raise (RouterNotCompatibleWithAgent rid) →
  rid = id router
  ∧ router_info (_process_router_if_compatible env router s).2
    = router_info s.
Proof.
  set (Q := λ (o : Outcome unit) s',
         ∀ rid, o = Raise (RouterNotCompatibleWithAgent rid) →
                rid = id router ∧ router_info s' = router_info s).
  set (I := λ s', router_info s' = router_info s).
  enough (post (_process_router_if_compatible env router) s Q) as Hpost
    by (intros H; by apply Hpost).
  unfold _process_router_if_compatible.
  apply post_bind. unfold post at 1, get_agent. cbn [fst snd].
  apply post_bind.
  eapply post_mono.
  { apply (post_keeps_raises I not_a_signal); [| |done].
    - destruct (truthy _); [|apply keeps_ret].
      apply keeps_bind; [|intros ?; apply keeps_ret].
      apply keeps_call_ret. by intros cs s'.
    - destruct (truthy _); [|apply raises_only_ret].
      apply raises_only_bind; [|intros ?; apply raises_only_ret].
      by apply raises_only_call_ret. }
  intros [missing|e] s1 [Hs1 He]; [|intros rid' [= ->]; by destruct (not_a_signal_incompatible rid'); auto].
  destruct missing; [by intros rid' [=]|].
  destruct (_ && _); [intros rid' [= <-]; by split|].
  destruct (_ && _); [intros rid' [= <-]; by split|].
  apply post_bind. eapply post_mono.
  { apply (post_keeps_raises I not_a_signal); [| |exact Hs1].
    - apply _fetch_external_net_id_keeps_registry.
    - apply _fetch_external_net_id_no_signal. }
  intros [target|e] s2 [Hs2 He2]; [|intros rid' [= ->]; by destruct (not_a_signal_incompatible rid'); auto].
  apply post_bind.
  assert (Hdispatch : ∀ s3, post
            (let* s' := get_agent in
             match router_info s' !! id router with
             | Some _ => _process_updated_router env router
             | None => _process_added_router env router
             end) s3 Q).
  { intros s3 rid' Heq. exfalso.
    assert (Hr : raises_only not_a_signal
              (let* s' := get_agent in
               match router_info s' !! id router with
               | Some _ => _process_updated_router env router
               | None => _process_added_router env router
               end)).
    { apply raises_only_bind; [apply raises_only_get_agent | intros s'].
      destruct (router_info s' !! id router);
        [apply _process_updated_router_no_signal
        | apply _process_added_router_no_signal]. }
    eapply not_a_signal_incompatible, Hr, Heq. }
  destruct (_ && _ && _); [|apply Hdispatch].
  apply post_bind. eapply post_mono.
  { apply (post_keeps_raises I not_a_signal); [| |exact Hs2].
    - apply _fetch_external_net_id_keeps_registry.
    - apply _fetch_external_net_id_no_signal. }
  intros [forced|e] s3 [Hs3 He3]; [|intros rid' [= ->]; by destruct (not_a_signal_incompatible rid'); auto].
  destruct (negb _); [intros rid' [= <-]; by split | apply Hdispatch].
Qed.

Lemma incompatibility_signal_comes_from_the_check_witness :
  (_process_router_if_compatible Sample.quiet_env Sample.r1_no_gw
     Sample.agent1).1 = Raise (RouterNotCompatibleWithAgent "r1")
  ∧ "r1" = id Sample.r1_no_gw
  ∧ router_info (_process_router_if_compatible Sample.quiet_env
                   Sample.r1_no_gw Sample.agent1).2
    = router_info Sample.agent1.
Proof.
  split; [reflexivity|].
  exact (incompatibility_signal_comes_from_the_check Sample.quiet_env
           Sample.r1_no_gw Sample.agent1 "r1" eq_refl).
Defined.

(** *** Releases *)

Section Release.
Variables (env : Env) (s0 : Agent).
Let I : Agent → Prop := only_calls no_release s0.

Lemma only_calls_call c : no_release c → keeps I (call env c).
Proof.
  intros Hc s [cs [Htr Hcs]].
  assert (Hadd : I (add_calls [c] s)).
  { exists (cs ++ [c]). split.
    - change (trace (add_calls [c] s)) with (trace s ++ [c]).
      by rewrite Htr, app_assoc.
    - apply Forall_app. by repeat constructor. }
  unfold call. by destruct (env_raises env (trace s) c).
Qed.

Lemma only_calls_frame (f : Agent → Agent) :
  (∀ s, trace (f s) = trace s) → ∀ s, I s → I (f s).
Proof. intros Hf s [cs [Htr Hcs]]. exists cs. by rewrite Hf. Qed.

Lemma _router_removed_keeps_releases rid : keeps I (_router_removed env rid).
Proof.
  apply (_router_removed_keeps env I (λ _, True) no_release (λ _, True));
    first [ done | apply only_calls_call
          | by intros; apply only_calls_frame ].
Qed.

Lemma _process_router_if_compatible_keeps_releases router :
  keeps I (_process_router_if_compatible env router).
Proof.
  apply (_process_router_if_compatible_keeps env I (λ _, True) no_release
           (λ _, True));
    first [ done | apply only_calls_call
          | by intros; apply only_calls_frame ].
Qed.

Lemma fetch_for_update_keeps_releases update :
  keeps I (fetch_for_update env update).
Proof.
  apply (fetch_for_update_keeps env I no_release);
    first [ done | apply only_calls_call
          | by intros; apply only_calls_frame ].
Qed.

End Release.

Lemma only_calls_refl P s : only_calls P s s.
Proof. exists []. by rewrite app_nil_r. Qed.

Lemma only_calls_no_release s s' :
  only_calls no_release s s' →
  List.filter is_release (calls_since s s') = [].
Proof.
  intros [cs [Htr Hcs]]. unfold calls_since. rewrite Htr, drop_app_length.
  clear Htr. induction Hcs as [|c cs Hc _ IH]; [done|].
  unfold no_release in Hc. by rewrite filter_cons_bool, Hc.
Qed.

Lemma fetch_for_update_stamp env update s r ts :
  (fetch_for_update env update s).1 = Ok (Fetched_ r ts) →
  ts = match u_action update, u_router update with
       | None, None => env_now env (trace s)
       | _, _ => u_timestamp update
       end.
Proof.
  unfold fetch_for_update.
  destruct (u_action update) as [a|], (u_router update) as [r0|];
    try by intros [= _ <-].
  unfold try_except, bind at 1.
  unfold call_ret at 1, bind at 1, get_agent at 1, bind at 1, call at 1.
  destruct (env_raises env (trace s) utcnow); [done|].
  unfold ret at 1. unfold bind at 1.
  destruct (call_ret env _ _ _) as [[routers|e] s1]; [|done].
  by intros [= _ <-].
Qed.

(** X6.  One iteration of the worker loop calls [fetched_and_processed]
    at most once, and then for the router of the update and with the
    timestamp the update holds at that moment: the time read before the
    fetch when the iteration fetched the router itself, the update's own
    timestamp otherwise. *)
Theorem at_most_one_release_per_update env update s :
  let s' := (process_one_update env update s).2 in
  let stamp := match u_action update, u_router update with
               | None, None => env_now env (trace s)
               | _, _ => u_timestamp update
               end in
  List.filter is_release (calls_since s s') = []
  ∨ List.filter is_release (calls_since s s')
    = [fetched_and_processed (u_id update) stamp].
Proof.
  intros s' stamp. subst s'.
  set (I := only_calls no_release s).
  set (Q := λ (o : Outcome unit) s',
         List.filter is_release (calls_since s s') = []
         ∨ List.filter is_release (calls_since s s')
           = [fetched_and_processed (u_id update) stamp]).
  assert (HI : ∀ o s', I s' → Q o s').
  { intros o s' Hs'. left. by apply only_calls_no_release. }
  enough (post (process_one_update env update) s Q) as Hpost by exact Hpost.
  unfold process_one_update. apply post_bind.
  pose proof (fetch_for_update_keeps_releases env s update s
                (only_calls_refl _ s)) as Hf.
  pose proof (fetch_for_update_stamp env update s) as Hstamp.
  unfold post at 1.
  destruct (fetch_for_update env update s) as [[f|e] s1]; simpl in *;
    [|by apply HI].
  destruct f as [|[router|] ts].
  - by apply (HI (Ok tt) s1).
  - specialize (Hstamp _ _ eq_refl). fold stamp in Hstamp. subst ts.
    apply post_bind. unfold post at 1.
    assert (Hk : keeps I
              (try_except
                 (_process_router_if_compatible env router ;;; ret true)
                 is_Exception
                 (λ e, if is_RouterNotCompatibleWithAgent e
                       then (let* s2 := get_agent in
                             match router_info s2 !! id router with
                             | Some _ => _router_removed env (id router)
                             | None => ret tt
                             end) ;;; ret true
                       else set_fullsync true ;;; ret false))).
    { apply keeps_try_except.
      - apply keeps_bind;
          [apply _process_router_if_compatible_keeps_releases
          | intros _; apply keeps_ret].
      - intros e. destruct (is_RouterNotCompatibleWithAgent e).
        + apply keeps_bind; [|intros _; apply keeps_ret].
          apply keeps_bind_get_agent. intros s2 _.
          destruct (router_info s2 !! id router);
            [apply _router_removed_keeps_releases | apply keeps_ret].
        + apply keeps_bind; [|intros _; apply keeps_ret].
          intros s2 Hs2. by apply (only_calls_frame s (with_fullsync true)). }
    specialize (Hk s1 Hf).
    destruct (try_except _ _ _ s1) as [[finished|e] s2]; simpl in *;
      [|by apply (HI (Raise e) s2)].
    destruct finished; [|by apply (HI (Ok tt) s2)].
    unfold post, when, call.
    assert (Hrel : List.filter is_release
                     (calls_since s
                        (add_calls [fetched_and_processed (u_id update) stamp]
                           s2))
                   = [fetched_and_processed (u_id update) stamp]).
    { destruct Hk as [cs [Htr Hcs]]. unfold calls_since.
      change (trace (add_calls ?c s2)) with (trace s2 ++ c).
      rewrite Htr, <- app_assoc, drop_app_length, List.filter_app.
      assert (List.filter is_release cs = []) as ->; [|done].
      clear Htr. induction Hcs as [|c cs Hc _ IH]; [done|].
      unfold no_release in Hc. by rewrite filter_cons_bool, Hc. }
    destruct (env_raises env (trace s2) _); right; exact Hrel.
  - unfold post. apply (HI _ _).
    apply keeps_try_except; [apply _router_removed_keeps_releases| |exact Hf].
    intros e s2 Hs2. by apply (only_calls_frame s (with_fullsync true)).
Qed.

(** ** Floating-ip statuses *)

Lemma foldl_insert_lookup (l : list string) (m : gmap string string) v k :
  foldl (λ statuses fip_id, <[fip_id := v]> statuses) m l !! k
  = if decide (k ∈ l) then Some v else m !! k.
Proof.
  revert m. induction l as [|x l IH]; intros m.
  - destruct (decide (k ∈ [])) as [Hin|]; [|done].
    by apply not_elem_of_nil in Hin.
  - cbn [foldl]. rewrite IH. destruct (decide (k ∈ l)) as [Hin|Hin].
    + by rewrite (decide_True (P := k ∈ x :: l)) by (by right).
    + destruct (decide (k = x)) as [->|Hne].
      * rewrite (decide_True (P := x ∈ x :: l)) by left.
        by rewrite lookup_insert_eq.
      * rewrite (decide_False (P := k ∈ x :: l))
          by (intros [?|?]%elem_of_cons; done).
        by rewrite lookup_insert_ne.
Qed.

(** X7.  [update_fip_statuses] sets [ri.floating_ips] to the keys of the
    statuses it is given; in the statuses it sends, an address that had
    a status keeps it, an address that had none is DOWN when it was in
    [existing_floating_ips] and is absent otherwise; and a second run
    with the floating IPs the first run stored sends the statuses
    unchanged. *)
Theorem update_fip_statuses_marks_disabled_down existing fip_statuses :
  (update_fip_statuses existing fip_statuses).1 = dom fip_statuses
  ∧ (∀ fip_id,
       (update_fip_statuses existing fip_statuses).2 !! fip_id
       = match fip_statuses !! fip_id with
         | Some status => Some status
         | None => if decide (fip_id ∈ existing)
                   then Some FLOATINGIP_STATUS_DOWN else None
         end)
  ∧ (update_fip_statuses (update_fip_statuses existing fip_statuses).1
       fip_statuses).2 = fip_statuses.
Proof.
  split; [done|]. split.
  - intros fip_id. unfold update_fip_statuses. cbn [snd].
    rewrite foldl_insert_lookup.
    destruct (fip_statuses !! fip_id) as [status|] eqn:Hst.
    + rewrite decide_False; [done|].
      rewrite elem_of_elements, elem_of_difference, elem_of_dom.
      intros [_ Hno]. apply Hno. by eexists.
    + destruct (decide (fip_id ∈ existing)) as [Hin|Hin].
      * rewrite decide_True; [done|].
        rewrite elem_of_elements, elem_of_difference, elem_of_dom.
        split; [done|]. rewrite Hst. by intros [? ?].
      * rewrite decide_False; [done|].
        rewrite elem_of_elements, elem_of_difference. by intros [? _].
  - unfold update_fip_statuses. cbn [fst snd].
    by rewrite difference_diag_L, elements_empty.
Qed.

(** The case of the two floating ips A and B, of which only A is still
    configured. *)
Example update_fip_statuses_A_B :
  (update_fip_statuses {["A"; "B"]} {["A" := "ACTIVE"]}).2
  = {["A" := "ACTIVE"; "B" := "DOWN"]}.
Proof. vm_compute. reflexivity. Qed.

(** ** State reports *)

Lemma count_ex_gw_ports_le infos : (count_ex_gw_ports infos ≤ length infos)%nat.
Proof.
  unfold count_ex_gw_ports. induction infos as [|ri l IH]; simpl; [lia|].
  destruct (bool_decide _); simpl; lia.
Qed.

(** X8.  Over any series of state reports: 'start_flag' is still in the
    agent state, and [use_call] still true, exactly when they were so at
    the start and no report has succeeded; the heartbeat still runs
    exactly when it ran at the start and no report raised
    AttributeError; and after at least one run the number of gateway
    ports reported is at most the number of routers reported. *)
Theorem report_state_flags reports st :
  let st' := report_all reports st in
  (start_flag st' = true ↔
   start_flag st = true ∧ Forall (λ r, r.1 ≠ ReportOk) reports)
  ∧ (use_call st' = true ↔
     use_call st = true ∧ Forall (λ r, r.1 ≠ ReportOk) reports)
  ∧ (heartbeat st' = true ↔
     heartbeat st = true ∧ Forall (λ r, r.1 ≠ ReportAttributeError) reports)
  ∧ (reports ≠ [] → (ex_gw_ports st' ≤ routers st')%nat).
Proof.
  unfold report_all. revert st.
  induction reports as [|[o reg] reports IH] using rev_ind; intros st.
  { simpl. rewrite !Forall_nil. intuition lia. }
  rewrite foldl_app. simpl.
  destruct (IH st) as (Hs & Hu & Hh & _).
  set (st1 := foldl _ st reports) in *.
  rewrite !Forall_app, !Forall_singleton. simpl.
  split; [|split; [|split]].
  - destruct o; simpl; intuition congruence.
  - destruct o; simpl; intuition congruence.
  - destruct o; simpl; intuition congruence.
  - intros _. destruct o; simpl; apply count_ex_gw_ports_le.
Qed.

Lemma report_state_flags_witness :
  ([(ReportOk, router_info Sample.agent1)] ≠ [])
  ∧ (ex_gw_ports (report_all [(ReportOk, router_info Sample.agent1)]
                    Scenario.first_report)
     ≤ routers (report_all [(ReportOk, router_info Sample.agent1)]
                  Scenario.first_report))%nat.
Proof.
  assert (H : [(ReportOk, router_info Sample.agent1)] ≠ []) by discriminate.
  split; [exact H|].
  exact (proj2 (proj2 (proj2 (report_state_flags
                                [(ReportOk, router_info Sample.agent1)]
                                Scenario.first_report))) H).
Defined.

(** ** The external network id *)

(** X9.  An external network id returned by [_fetch_external_net_id]
    (a non-empty one) is returned again by the next unforced call,
    without any collaborator call and with the agent unchanged; the
    configuration is never changed, and when
    [gateway_external_network_id] is configured the call changes
    nothing at all. *)
Theorem external_net_id_is_cached env force s v s1 :
  _fetch_external_net_id env force s = (Ok (Some v), s1) →
  truthy v = true →
  _fetch_external_net_id env false s1 = (Ok (Some v), s1)
  ∧ conf s1 = conf s
  ∧ (truthy (gateway_external_network_id (conf s)) = true → s1 = s).
Proof.
  unfold _fetch_external_net_id at 1. unfold bind at 1, get_agent at 1.
  destruct (truthy (gateway_external_network_id (conf s))) eqn:Hg.
  { intros [= <- <-] Hv. split; [|done].
    unfold _fetch_external_net_id, bind, get_agent. by rewrite Hg. }
  destruct (truthy (external_network_bridge (conf s))) eqn:Hb; [|done].
  cbn [negb].
  destruct (negb force && truthy_opt (target_ex_net_id s)) eqn:Hc.
  { intros [= Ht <-] Hv. split; [|done].
    unfold _fetch_external_net_id, bind, get_agent.
    rewrite Hg, Hb, Ht. cbn. by rewrite Hv. }
  unfold try_except, bind at 1, call_ret at 1, bind at 1, get_agent at 1,
    bind at 1, call at 1.
  destruct (env_raises env (trace s) get_external_network_id) as [f|].
  { cbn. destruct f as [|ty| |]; try done.
    destruct (decide (ty = "TooManyExternalNetworks")) as [->|Hne]; [done|].
    intros H. exfalso. revert H.
    repeat (match goal with
            | |- context [match ?x with _ => _ end] => destruct x
            end; try done). }
  cbn. intros [= <- <-] Hv. split; [|done].
  unfold _fetch_external_net_id, bind, get_agent. cbn.
  by rewrite Hg, Hb, Hv.
Qed.

Lemma external_net_id_is_cached_witness :
  let s1 := with_target_ex_net_id (Some "ext-net")
              (add_calls [get_external_network_id] Sample.agent_bridge) in
  _fetch_external_net_id Sample.quiet_env false Sample.agent_bridge
  = (Ok (Some "ext-net"), s1)
  ∧ truthy "ext-net" = true
  ∧ _fetch_external_net_id Sample.quiet_env false s1
    = (Ok (Some "ext-net"), s1).
Proof.
  intros s1. split; [reflexivity|]. split; [reflexivity|].
  exact (proj1 (external_net_id_is_cached Sample.quiet_env false
                  Sample.agent_bridge "ext-net" s1 eq_refl eq_refl)).
Defined.

(** ** Registration of a new router *)

(** X10.  [_router_added] registers the runtime object before it
    creates it: when the router is not both distributed and HA, the
    monitor set-up and the first notification succeed and [ri.create()]
    fails, the fault leaves [_router_added] with the router registered
    under a fresh runtime object of the class of the document, after
    exactly these three calls. *)
Theorem router_is_registered_before_it_is_created env rid router s ft :
  is_true_opt (distributed router) && is_true_opt (ha router) = false →
  env_raises env (trace s) (radvd_monitor (id router)) = None →
  env_raises env (trace s ++ [radvd_monitor (id router)])
    (notify before_router_added rid) = None →
  env_raises env
    (trace s ++ [radvd_monitor (id router); notify before_router_added rid])
    (ri_create rid) = Some ft →
  ∃ s', _router_added env rid router s = (Raise (Collab ft), s')
    ∧ router_info s' !! rid
      = Some (new_router_info (variant_of router) rid router)
    ∧ calls_since s s'
      = [radvd_monitor (id router); notify before_router_added rid;
         ri_create rid].
Proof.
  intros Hok Hradvd Hnotify Hcreate.
  assert (Hc : _create_router rid router
               = ret (new_router_info (variant_of router) rid router)).
  { unfold _create_router, variant_of. rewrite Hok.
    by destruct (is_true_opt (distributed router)),
                (is_true_opt (ha router)). }
  unfold _router_added. rewrite Hc.
  unfold bind at 1, ret at 1. unfold bind at 1, call at 1. rewrite Hradvd.
  unfold bind at 1, call at 1.
  change (trace (add_calls ?c s)) with (trace s ++ c). rewrite Hnotify.
  unfold bind at 1, put_ri, bind at 1, get_agent, set_router_info.
  unfold bind at 1, call at 1. cbn [trace add_calls with_router_info].
  rewrite <- app_assoc. cbn [app]. rewrite Hcreate.
  eexists. split; [reflexivity|]. split.
  - cbn. by rewrite lookup_insert_eq.
  - unfold calls_since. cbn. rewrite <- !app_assoc. cbn.
    by rewrite drop_app_length.
Qed.

Lemma router_is_registered_before_it_is_created_witness :
  ∃ s', _router_added Scenario.create_fails_env "r2" Sample.r2 Sample.agent1
        = (Raise (Collab (OtherError "boom")), s')
    ∧ router_info s' !! "r2"
      = Some (new_router_info LegacyRouter "r2" Sample.r2)
    ∧ calls_since Sample.agent1 s'
      = [radvd_monitor "r2"; notify before_router_added "r2";
         ri_create "r2"].
Proof.
  exact (router_is_registered_before_it_is_created Scenario.create_fails_env
           "r2" Sample.r2 Sample.agent1 (OtherError "boom")
           eq_refl eq_refl eq_refl eq_refl).
Defined.

(** ** Port forwarding: edges *)

Lemma populate_without_fixed_ip gw p pfs :
  (fixed_ips gw = None → populate gw (p :: pfs) = Raise TypeError)
  ∧ (fixed_ips gw = Some [] → populate gw (p :: pfs) = Raise IndexError).
Proof.
  split; intros Hg; simpl; unfold first_fixed_ip; by rewrite Hg.
Qed.

(** X11.  A port-forward pass for a router with at least one desired
    rule and a gateway port without fixed IP fails before it touches
    anything: with no 'fixed_ips' it raises TypeError, with an empty
    list IndexError, and the agent, trace included, is as it was. *)
Theorem gateway_without_fixed_ip_fails_the_pass env s rid ri gw p pfs :
  router_info s !! rid = Some ri →
  portforwardings (ri_router ri) = Some (p :: pfs) →
  (fixed_ips gw = None →
   process_router_portforwardings env rid (Some gw) s = (Raise TypeError, s))
  ∧ (fixed_ips gw = Some [] →
     process_router_portforwardings env rid (Some gw) s
     = (Raise IndexError, s)).
Proof.
  intros Hri Hpf.
  destruct (populate_without_fixed_ip gw p pfs) as [Hnone Hnil].
  split; intros Hg;
    unfold process_router_portforwardings, bind, get_ri, bind, get_agent;
    rewrite Hri; cbn; rewrite Hpf; [rewrite (Hnone Hg) | rewrite (Hnil Hg)];
    done.
Qed.

Lemma gateway_without_fixed_ip_fails_the_pass_witness :
  router_info Sample.agent1 !! "r1"
  = Some (Sample.ri_with Sample.r1 [Sample.old_pf])
  ∧ fixed_ips Scenario.gw_no_ips = None
  ∧ process_router_portforwardings Sample.quiet_env "r1"
      (Some Scenario.gw_no_ips) Sample.agent1
    = (Raise TypeError, Sample.agent1).
Proof.
  split; [reflexivity|]. split; [reflexivity|].
  exact (proj1 (gateway_without_fixed_ip_fails_the_pass Sample.quiet_env
                  Sample.agent1 "r1" _ Scenario.gw_no_ips Sample.new_pf []
                  eq_refl eq_refl) eq_refl).
Defined.

(** *** The calls of a pass *)

Section PortforwardCalls.
Variables (env : Env) (rid : string) (s0 : Agent).
Let I : Agent → Prop := only_calls (is_portforward_call rid) s0.

Lemma portforward_call_keeps c :
  is_portforward_call rid c → keeps I (call env c).
Proof.
  intros Hc s [cs [Htr Hcs]].
  assert (Hadd : I (add_calls [c] s)).
  { exists (cs ++ [c]). split.
    - change (trace (add_calls [c] s)) with (trace s ++ [c]).
      by rewrite Htr, app_assoc.
    - apply Forall_app. split; [done | by apply Forall_singleton]. }
  unfold call. by destruct (env_raises env (trace s) c).
Qed.

Lemma portforward_put_keeps r ri : keeps I (put_ri r ri).
Proof. intros s [cs [Htr Hcs]]. by exists cs. Qed.

Lemma _update_portforwardings_calls op p :
  keeps I (_update_portforwardings env rid op p).
Proof.
  unfold _update_portforwardings, rule_in.
  destruct (outside_addr p) as [a|]; [|apply keeps_raise].
  destruct op; [| |apply keeps_raise]; apply portforward_call_keeps.
  - left. by eexists _, _.
  - right; left. by eexists _, _.
Qed.

Ltac pf_leaf :=
  idtac;
  lazymatch goal with
  | |- keeps _ (_update_portforwardings _ _ _ _) =>
      apply _update_portforwardings_calls
  | |- keeps _ (put_ri _ _) => apply portforward_put_keeps
  | |- keeps _ (call _ (iptables_apply _)) =>
      apply portforward_call_keeps; by right; right
  end.

Lemma process_router_portforwardings_calls gw :
  keeps I (process_router_portforwardings env rid gw).
Proof. unfold process_router_portforwardings. keeps_go pf_leaf. Qed.

End PortforwardCalls.

(** X12.  Whatever the gateway, the registry and the collaborators'
    faults, the calls a port-forward pass makes for a router are DNAT
    rules added to (with the tag portforwarding) or removed from the
    PREROUTING chain of that router, and the commit of that router's
    tables; nothing else. *)
Theorem portforwarding_only_manages_prerouting_dnat env rid gw s :
  Forall (is_portforward_call rid)
    (calls_since s (process_router_portforwardings env rid gw s).2).
Proof.
  destruct (process_router_portforwardings_calls env rid s gw s
              (only_calls_refl _ s)) as [cs [Htr Hcs]].
  unfold calls_since. by rewrite Htr, drop_app_length.
Qed.

(** *** What a pass can raise *)

Section PassErrors.
Variables (env : Env) (rid : string).
Let I : Agent → Prop := λ s, is_Some (router_info s !! rid).

Lemma registered_blind : trace_blind I.
Proof. by intros cs s. Qed.

Lemma _update_portforwardings_keeps_registered op p :
  keeps I (_update_portforwardings env rid op p).
Proof.
  unfold _update_portforwardings.
  destruct (rule_in p); [|apply keeps_raise].
  destruct op; [| |apply keeps_raise]; apply keeps_call, registered_blind.
Qed.

Lemma _update_portforwardings_populated_raises op p :
  populated p → op ≠ other_op →
  raises_only is_fault (_update_portforwardings env rid op p).
Proof.
  intros Hp Hop. unfold _update_portforwardings.
  rewrite (rule_in_populated p Hp).
  destruct op; [| |done]; apply raises_only_call; intros ft; by eexists.
Qed.

Lemma update_loop_post op l s :
  op ≠ other_op → Forall populated l → I s →
  post (for_each l (_update_portforwardings env rid op)) s
    (λ o s', I s' ∧ ∀ e, o = Raise e → is_fault e).
Proof.
  intros Hop Hl Hs. split.
  - by apply keeps_for_each; [intros p; apply _update_portforwardings_keeps_registered|].
  - revert s Hs. induction Hl as [|p l Hp Hl IH]; intros s Hs e; [done|].
    simpl. unfold bind.
    pose proof (_update_portforwardings_populated_raises op p Hp Hop s) as Hr.
    pose proof (_update_portforwardings_keeps_registered op p s Hs) as Hk.
    destruct (_update_portforwardings env rid op p s) as [[[]|e'] s1];
      simpl in *; [by apply IH | intros [= <-]; by apply Hr].
Qed.

Lemma store_post l s :
  I s →
  post (let* ri' := get_ri rid in put_ri rid (set_ri_portforwardings l ri')) s
    (λ o s', ∀ e, o = Raise e → is_fault e).
Proof.
  intros [ri Hri]. unfold post, bind, get_ri, bind, get_agent.
  by rewrite Hri.
Qed.

End PassErrors.

(** X13.  For a registered router whose stored entries carry their
    outside address, what a port-forward pass raises is the fault of a
    collaborator call, or the TypeError or IndexError of a gateway
    without fixed IP, in which case the agent is as it was; in
    particular never a KeyError. *)
Theorem portforwarding_pass_errors env rid gw s ri e :
  router_info s !! rid = Some ri →
  Forall populated (ri_portforwardings ri) →
  (process_router_portforwardings env rid gw s).1 = Raise e →
  is_fault e
  ∨ ((e = TypeError ∨ e = IndexError)
     ∧ (process_router_portforwardings env rid gw s).2 = s).
Proof.
  intros Hri Hold.
  set (Q := λ (o : Outcome unit) s',
         ∀ e, o = Raise e →
              is_fault e ∨ ((e = TypeError ∨ e = IndexError) ∧ s' = s)).
  set (I := λ s' : Agent, is_Some (router_info s' !! rid)).
  enough (post (process_router_portforwardings env rid gw) s Q) as Hpost
    by (intros H; by apply Hpost).
  assert (Hfault : ∀ (o : Outcome unit) s',
            (∀ e, o = Raise e → is_fault e) → Q o s').
  { intros o s' H e' He'. left. by apply H. }
  unfold process_router_portforwardings.
  apply post_bind. unfold post at 1.
  rewrite (get_ri_found rid s ri Hri). cbn [fst snd].
  destruct (portforwardings (ri_router ri)) as [pfs|]; [|by intros e' [=]].
  apply post_bind.
  assert (Happly : ∀ s2, post (call env (iptables_apply rid)) s2 Q).
  { intros s2. apply Hfault. intros e'.
    apply (raises_only_call is_fault); intros ft; by eexists. }
  destruct gw as [g|].
  - destruct (populate g pfs) as [new|e0] eqn:Hpop.
    + apply post_bind. unfold post at 1.
      rewrite put_ri_eq. cbn [fst snd].
      set (s1 := with_router_info _ s).
      assert (Hs1 : I s1).
      { unfold I, s1. cbn. rewrite lookup_insert_eq. by eexists. }
      pose proof (populate_populated _ _ _ Hpop) as Hnew.
      rewrite (surjective_pairing (diff_list_of_dict _ _)).
      apply post_bind. eapply post_mono.
      { apply (update_loop_post env rid create); [done| |exact Hs1].
        eapply Forall_forall. intros x Hx%multiset_diff_sub.
        by eapply Forall_forall in Hnew. }
      intros [[]|e1] s2 [Hs2 He1]; [|by apply Hfault].
      apply post_bind. eapply post_mono.
      { apply (update_loop_post env rid delete_op); [done| |exact Hs2].
        eapply Forall_forall. intros x Hx%multiset_diff_sub.
        by eapply Forall_forall in Hold. }
      intros [[]|e2] s3 [Hs3 He2]; [|by apply Hfault].
      eapply post_mono; [by apply store_post|].
      intros [[]|e3] s4 He3; [apply Happly | by apply Hfault].
    + unfold post, raise. cbn. intros e' [= <-]. right.
      split; [by apply (populate_raises _ _ _ Hpop) | done].
  - apply post_bind. eapply post_mono.
    { apply (update_loop_post env rid delete_op); [done|exact Hold|].
      unfold I. by eexists. }
    intros [[]|e2] s3 [Hs3 He2]; [|by apply Hfault].
    eapply post_mono; [by apply store_post|].
    intros [[]|e3] s4 He3; [apply Happly | by apply Hfault].
Qed.

Lemma portforwarding_pass_errors_witness :
  (process_router_portforwardings Sample.quiet_env "r1"
     (Some Scenario.gw_no_ips) Sample.agent1).1 = Raise TypeError
  ∧ (is_fault TypeError
     ∨ ((TypeError = TypeError ∨ TypeError = IndexError)
        ∧ (process_router_portforwardings Sample.quiet_env "r1"
             (Some Scenario.gw_no_ips) Sample.agent1).2 = Sample.agent1)).
Proof.
  split; [reflexivity|].
  exact (portforwarding_pass_errors Sample.quiet_env "r1"
           (Some Scenario.gw_no_ips) Sample.agent1
           (Sample.ri_with Sample.r1 [Sample.old_pf]) TypeError
           eq_refl sample_populated eq_refl).
Defined.

Lemma for_each_two_calls_ok {A} env (f g : A → Call) l s s' :
  for_each l (λ x, call env (f x) ;;; call env (g x)) s = (Ok tt, s') →
  s' = add_calls (flat_map (λ x, [f x; g x]) l) s.
Proof.
  revert s. induction l as [|x l IH]; intros s; simpl.
  - intros [= <-]. by rewrite add_calls_nil.
  - unfold bind at 1. unfold bind at 1. unfold call at 1.
    destruct (env_raises env (trace s) (f x)) as [ft|]; [done|].
    unfold call at 1.
    destruct (env_raises env _ (g x)) as [ft|]; [done|].
    intros H. apply IH in H as ->. by rewrite !add_calls_app.
Qed.

Lemma fetch_and_sync_clears_after_enqueue env s o s' :
  fetch_and_sync_all_routers env s = (o, s') →
  fullsync s = true → fullsync s' = false →
  ∃ cs, trace s'
        = trace s
          ++ [utcnow; get_routers (sync_router_ids (conf s))]
          ++ flat_map (sync_calls (env_now env (trace s)))
               (env_routers env (trace s ++ [utcnow])
                  (sync_router_ids (conf s)))
          ++ cs.
Proof.
  unfold fetch_and_sync_all_routers, bind at 1, get_agent at 1.
  unfold bind at 1, call_ret at 1, bind at 1, get_agent at 1, bind at 1, call at 1.
  destruct (env_raises env (trace s) utcnow) as [ft|] eqn:Hnow.
  { intros [= <- <-]. cbn. congruence. }
  unfold ret at 1. unfold bind at 1, try_except, fetch_routers, bind at 1, get_agent at 1.
  unfold call_ret, bind at 1, get_agent at 1, bind at 1, call at 1.
  change (trace (add_calls [utcnow] s)) with (trace s ++ [utcnow]).
  change (conf (add_calls [utcnow] s)) with (conf s).
  destruct (env_raises env (trace s ++ [utcnow]) _) as [ft|] eqn:Hfetch.
  { destruct (is_MessagingException (Collab ft)); intros [= <- <-]; cbn;
      congruence. }
  unfold ret at 1. unfold sync_fetched, bind at 1.
  destruct (for_each _ _ (add_calls _ (add_calls _ s))) as [o1 s1] eqn:H1.
  destruct o1 as [[]|e1].
  - apply for_each_two_calls_ok in H1 as ->.
    unfold bind at 1, set_fullsync. intros H2.
    apply for_each_two_calls_any in H2 as [[cs2 ->] _].
    intros _ _. exists cs2.
    rewrite trace_add_calls. cbn [trace with_fullsync].
    rewrite !trace_add_calls. by rewrite <- !app_assoc.
  - apply for_each_two_calls_any in H1 as [[cs1 ->] _].
    intros [= <- <-]. rewrite !fullsync_add_calls. congruence.
Qed.

(** The calls of a periodic task that clears the flag, through the
    calls the full sync makes for a fetched router. *)
Lemma periodic_task_enqueues_before_clearing env s :
  fullsync s = true →
  fullsync (periodic_sync_routers_task env s).2 = false →
  let h := trace s ++ [process_services_sync; ns_enter] in
  let ids := sync_router_ids (conf s) in
  ∃ cs,
    calls_since s (periodic_sync_routers_task env s).2
    = [process_services_sync; ns_enter; utcnow; get_routers ids]
      ++ flat_map (sync_calls (env_now env h))
           (env_routers env (h ++ [utcnow]) ids)
      ++ cs.
Proof.
  intros Hs.
  destruct (periodic_sync_routers_task env s) as [o s'] eqn:Hrun.
  cbn [snd]. revert Hrun.
  unfold periodic_sync_routers_task, bind at 1, call at 1.
  destruct (env_raises env (trace s) process_services_sync) as [ft|].
  { intros [= <- <-]. cbn. congruence. }
  unfold bind at 1, get_agent at 1. rewrite fullsync_add_calls, Hs.
  cbn [negb]. unfold try_except, with_namespaces_manager, bind at 1, call at 1.
  destruct (env_raises env _ ns_enter) as [ft|].
  { intros [= <- <-]. cbn. congruence. }
  set (s1 := add_calls [ns_enter] (add_calls [process_services_sync] s)).
  assert (Hs1 : fullsync s1 = true) by done.
  destruct (fetch_and_sync_all_routers env s1) as [o2 s2] eqn:Hfetch.
  pose proof (fetch_and_sync_clears_after_enqueue env s1 o2 s2 Hfetch Hs1)
    as Hcs.
  assert (Hend : ∀ b,
            fullsync s2 = false →
            let h := trace s ++ [process_services_sync; ns_enter] in
            let ids := sync_router_ids (conf s) in
            ∃ cs, calls_since s (add_calls [ns_exit b] s2)
                  = [process_services_sync; ns_enter; utcnow; get_routers ids]
                    ++ flat_map (sync_calls (env_now env h))
                         (env_routers env (h ++ [utcnow]) ids)
                    ++ cs).
  { intros b [cs Hs2]%Hcs h ids. exists (cs ++ [ns_exit b]).
    unfold calls_since. rewrite trace_add_calls, Hs2.
    unfold s1. rewrite !trace_add_calls.
    rewrite <- !app_assoc. rewrite drop_app_length.
    subst h ids. cbn. by rewrite <- !app_assoc. }
  destruct o2 as [[]|e].
  - unfold call at 1.
    destruct (env_raises env (trace s2) (ns_exit false)) as [ft|];
      intros [= <- <-]; rewrite ?fullsync_add_calls; by apply Hend.
  - unfold bind at 1, call at 1.
    destruct (env_raises env (trace s2) (ns_exit true)) as [ft|].
    + intros [= <- <-]; rewrite ?fullsync_add_calls; by apply Hend.
    + unfold raise. destruct (is_AbortSyncRouters e).
      * intros [= <- <-]. cbn. congruence.
      * intros [= <- <-]; rewrite ?fullsync_add_calls; by apply Hend.
Qed.

(** X14.  When a periodic task that starts with the full-sync flag set
    ends with the flag cleared, the fetch succeeded and every fetched
    router was enqueued: its calls start with the services sync, the
    entry of the namespaces manager, the clock, the fetch, and then,
    for each fetched router in order, [keep_router] and the enqueuing
    of an update for that router with the sync-task priority, no
    action (a Process update), the fetched document, and the time read
    before the fetch as timestamp. *)
Theorem full_sync_clears_flag_after_enqueuing env s :
  fullsync s = true →
  fullsync (periodic_sync_routers_task env s).2 = false →
  let h := trace s ++ [process_services_sync; ns_enter] in
  let ids := sync_router_ids (conf s) in
  ∃ cs,
    calls_since s (periodic_sync_routers_task env s).2
    = [process_services_sync; ns_enter; utcnow; get_routers ids]
      ++ flat_map
           (λ r, [keep_router (id r);
                  queue_add {| u_id := id r;
                               u_priority := PRIORITY_SYNC_ROUTERS_TASK;
                               u_action := None; u_router := Some r;
                               u_timestamp := env_now env h |}])
           (env_routers env (h ++ [utcnow]) ids)
      ++ cs.
Proof.
  intros Hs Hoff h ids.
  destruct (periodic_task_enqueues_before_clearing env s Hs Hoff)
    as [cs Hcs].
  exists cs. rewrite Hcs. reflexivity.
Qed.

Lemma full_sync_clears_flag_after_enqueuing_witness :
  fullsync Sample.agent1_fullsync = true
  ∧ fullsync (periodic_sync_routers_task Sample.r2_env
                Sample.agent1_fullsync).2 = false
  ∧ ∃ cs,
      calls_since Sample.agent1_fullsync
        (periodic_sync_routers_task Sample.r2_env Sample.agent1_fullsync).2
      = [process_services_sync; ns_enter; utcnow; get_routers None;
         keep_router "r2";
         queue_add {| u_id := "r2";
                      u_priority := PRIORITY_SYNC_ROUTERS_TASK;
                      u_action := None; u_router := Some Sample.r2;
                      u_timestamp := 42 |}]
        ++ cs.
Proof.
  split; [reflexivity|]. split; [reflexivity|].
  destruct (full_sync_clears_flag_after_enqueuing Sample.r2_env
              Sample.agent1_fullsync eq_refl eq_refl) as [cs Hcs].
  exists cs. exact Hcs.
Defined.

Lemma pass_without_gateway_calls env s rid ri :
  quiet env →
  router_info s !! rid = Some ri →
  Forall populated (ri_portforwardings ri) →
  ∃ ri', process_router_portforwardings env rid None s
         = (Ok tt, add_calls (pass_calls rid ri)
                     (with_router_info (<[rid := ri']> (router_info s)) s))
         ∧ ri_router ri' = ri_router ri ∧ ri_variant ri' = ri_variant ri.
Proof.
  intros Hq Hri Hold. unfold pass_calls.
  destruct (portforwardings (ri_router ri)) as [pfs|] eqn:Hpf.
  - exists (set_ri_portforwardings [] ri).
    by rewrite (pass_without_gateway env s rid ri pfs).
  - exists ri. rewrite (pass_without_capability env s rid ri None) by done.
    rewrite add_calls_nil. split; [|done]. f_equal.
    rewrite insert_id by done. by destruct s.
Qed.

Lemma process_router_without_gateway env s rid ri :
  quiet env →
  router_info s !! rid = Some ri →
  gw_port (ri_router ri) = None →
  Forall populated (ri_portforwardings ri) →
  ∃ ri', process_router env rid s
         = (Ok tt, add_calls (gatewayless_calls env rid ri (trace s))
                     (with_router_info (<[rid := ri']> (router_info s)) s)).
Proof.
  intros Hq Hri Hgw Hold. unfold process_router.
  rewrite (bind_ok _ _ _ _ _ (get_ri_found rid s ri Hri)).
  assert (∃ ri1, (when (bool_decide (distributed (ri_router ri) = None))
                    (put_ri rid (set_ri_router
                       (set_distributed (Some false) (ri_router ri)) ri))) s
                 = (Ok tt, with_router_info (<[rid := ri1]> (router_info s)) s)
                 ∧ gw_port (ri_router ri1) = None
                 ∧ portforwardings (ri_router ri1) = portforwardings (ri_router ri)
                 ∧ ri_portforwardings ri1 = ri_portforwardings ri
                 ∧ is_ha ri1 = is_ha ri) as (ri1 & Hstep & Hgw1 & Hpf1 & Hold1 & Hha1).
  { case_bool_decide.
    - eexists. split; [apply put_ri_eq|done].
    - exists ri. split; [|done]. unfold when, ret. f_equal.
      rewrite insert_id by done. by destruct s. }
  rewrite (bind_ok _ _ _ _ _ Hstep).
  set (s1 := with_router_info _ s).
  assert (Hri1 : router_info s1 !! rid = Some ri1) by apply lookup_insert_eq.
  rewrite (bind_ok _ _ _ _ _ (get_ri_found rid s1 ri1 Hri1)).
  rewrite Hgw1.
  rewrite (bind_ok (ret tt) _ s1 tt s1) by done.
  rewrite (bind_ok _ _ _ _ _ (call_quiet env _ _ Hq)).
  rewrite (bind_ok _ _ _ _ _ (call_quiet env _ _ Hq)).
  rewrite (bind_ok _ _ _ _ _ (call_quiet env _ _ Hq)).
  rewrite !add_calls_app.
  set (s2 := add_calls _ s1).
  assert (Hri2 : router_info s2 !! rid = Some ri1) by exact Hri1.
  destruct (pass_without_gateway_calls env s2 rid ri1 Hq Hri2)
    as (ri3 & Hpass & Hr3 & Hv3); [by rewrite Hold1|].
  rewrite (bind_ok _ _ _ _ _ Hpass).
  set (s3 := add_calls _ (with_router_info _ s2)).
  unfold bind at 1, get_agent at 1.
  assert (Hpc : pass_calls rid ri1 = pass_calls rid ri).
  { unfold pass_calls. by rewrite Hpf1, Hold1. }
  assert (Htr3 : trace s3
                 = trace s ++ [process_internal_ports rid; process_external rid;
                               routes_updated rid] ++ pass_calls rid ri).
  { unfold s3, s2, s1. rewrite Hpc. cbn. by rewrite <- !app_assoc. }
  assert (Hri3 : router_info s3 !! rid = Some ri3) by apply lookup_insert_eq.
  assert (Hha3 : is_ha ri1 = is_ha ri) by done.
  eexists. unfold gatewayless_calls.
  rewrite Htr3, Hha1.
  destruct (is_ha ri && env_ha_port env _ rid).
  - cbn [when]. rewrite (bind_ok _ _ _ _ _ (call_quiet env _ _ Hq)).
    assert (Hri4 : router_info (add_calls [enable_keepalived rid] s3) !! rid
                   = Some ri3) by exact Hri3.
    rewrite (bind_ok _ _ _ _ _ (get_ri_found rid _ ri3 Hri4)).
    rewrite put_ri_eq. f_equal.
    unfold s3, s2, s1. rewrite Hpc. unfold add_calls, with_router_info. cbn.
    rewrite !insert_insert_eq. by rewrite <- !app_assoc.
  - cbn [when]. rewrite (bind_ok (ret tt) _ s3 tt s3) by done.
    rewrite (bind_ok _ _ _ _ _ (get_ri_found rid _ ri3 Hri3)).
    rewrite put_ri_eq. f_equal.
    unfold s3, s2, s1. rewrite Hpc. unfold add_calls, with_router_info. cbn.
    rewrite !insert_insert_eq. by rewrite <- !app_assoc, app_nil_r.
Qed.

(** X15.  Removing a router that is not registered changes nothing.
    Removing a registered one whose stored entries carry their outside
    address, when no collaborator call raises, returns with the router
    gone from the registry, every other field unchanged, and exactly
    these calls: the notification, [terminate] for an HA router, the
    processing of the emptied document (internal ports, external
    gateway, routes, one retraction per stored port-forward rule and
    the commit when the document has a 'portforwardings' key,
    keepalived for an HA router with an HA port), [ri.delete()] and the
    last notification. *)
Theorem router_removal_retracts_portforwardings env s rid :
  (router_info s !! rid = None → _router_removed env rid s = (Ok tt, s))
  ∧ (∀ ri, router_info s !! rid = Some ri →
       quiet env →
       Forall populated (ri_portforwardings ri) →
       _router_removed env rid s
       = (Ok tt, add_calls (removal_calls env rid ri (trace s))
                   (with_router_info (delete rid (router_info s)) s))).
Proof.
  split.
  { intros Hri. unfold _router_removed, bind, get_agent. by rewrite Hri. }
  intros ri Hri Hq Hold. unfold _router_removed, bind at 1, get_agent at 1.
  rewrite Hri.
  rewrite (bind_ok _ _ _ _ _ (call_quiet env _ _ Hq)).
  assert (Hterm : (when (is_ha ri) (call env (ri_terminate rid)))
                    (add_calls [notify before_router_removed rid] s)
                  = (Ok tt, add_calls
                              ([notify before_router_removed rid]
                               ++ (if is_ha ri then [ri_terminate rid] else []))
                              s)).
  { destruct (is_ha ri); cbn [when].
    - by rewrite call_quiet, add_calls_app.
    - done. }
  rewrite (bind_ok _ _ _ _ _ Hterm).
  set (before := [notify before_router_removed rid] ++ _).
  rewrite (bind_ok _ _ _ _ _ (put_ri_eq _ _ _)).
  set (ri1 := set_ri_router _ ri).
  set (s1 := with_router_info _ (add_calls before s)).
  assert (Hri1 : router_info s1 !! rid = Some ri1) by apply lookup_insert_eq.
  destruct (process_router_without_gateway env s1 rid ri1 Hq Hri1)
    as [ri2 Hproc]; [done|done|].
  rewrite (bind_ok _ _ _ _ _ Hproc).
  set (s2 := add_calls _ (with_router_info _ s1)).
  assert (Hri2 : router_info s2 !! rid = Some ri2) by apply lookup_insert_eq.
  unfold bind at 1. unfold bind at 1, get_agent at 1. rewrite Hri2.
  unfold set_router_info.
  rewrite (bind_ok _ _ _ _ _ (call_quiet env _ _ Hq)).
  rewrite call_quiet by done. f_equal.
  change (gatewayless_calls env rid ri1) with (gatewayless_calls env rid ri).
  unfold removal_calls. fold before.
  unfold s2, s1, add_calls, with_router_info.
  cbn [conf router_info fullsync target_ex_net_id neutron_service_plugins
       trace].
  rewrite !delete_insert_eq. f_equal. by rewrite <- !app_assoc.
Qed.

Lemma router_removal_retracts_portforwardings_witness :
  router_info Sample.agent1 !! "r1"
  = Some (Sample.ri_with Sample.r1 [Sample.old_pf])
  ∧ _router_removed Sample.quiet_env "r1" Sample.agent1
    = (Ok tt,
       add_calls
         [notify before_router_removed "r1";
          process_internal_ports "r1"; process_external "r1";
          routes_updated "r1";
          retract_call "r1" Sample.old_pf; iptables_apply "r1";
          ri_delete "r1"; notify after_router_removed "r1"]
         (with_router_info ∅ Sample.agent1)).
Proof.
  split; [reflexivity|].
  exact (proj2 (router_removal_retracts_portforwardings Sample.quiet_env
                  Sample.agent1 "r1") _ eq_refl quiet_sample
           sample_populated).
Defined.

Lemma post_seq {A B} (J : Agent → Prop) (m : M A) (k : A → M B) s Q :
  keeps J m → J s →
  (∀ e s', J s' → Q (Raise e) s') →
  (∀ a s', J s' → post (k a) s' Q) →
  post (bind m k) s Q.
Proof.
  intros Hm Hs He Hk. apply post_bind. specialize (Hm s Hs). unfold post.
  destruct (m s) as [[a|e] s1]; cbn in *; [by apply Hk | by apply He].
Qed.

Section Cache.
Variables (env : Env) (rid : string).
Variables (doc cache : option Port * list Port * option bool).
Let J : Agent → Prop := registered_with rid doc cache.

Lemma registered_with_blind : trace_blind J.
Proof. by intros cs s. Qed.

Lemma update_entry_keeps (f : RouterInfo → RouterInfo) :
  (∀ ri, cached_fields (ri_router (f ri)) = cached_fields (ri_router ri)
         ∧ cache_of (f ri) = cache_of ri) →
  keeps J (let* ri := get_ri rid in put_ri rid (f ri)).
Proof.
  intros Hf s (ri & Hri & Hdoc & Hcache).
  rewrite (bind_ok _ _ _ _ _ (get_ri_found rid s ri Hri)), put_ri_eq.
  exists (f ri). cbn. rewrite lookup_insert_eq.
  destruct (Hf ri) as [-> ->]. done.
Qed.

Lemma put_entry_keeps ri (f : RouterInfo → RouterInfo) s :
  router_info s !! rid = Some ri →
  cached_fields (ri_router (f ri)) = cached_fields (ri_router ri) →
  cache_of (f ri) = cache_of ri →
  J s → J (put_ri rid (f ri) s).2.
Proof.
  intros Hri Hd Hc (ri' & Hri' & Hdoc & Hcache).
  assert (ri' = ri) as -> by congruence.
  exists (f ri). cbn. rewrite lookup_insert_eq. by rewrite Hd, Hc.
Qed.

Lemma update_loop_keeps op l :
  keeps J (for_each l (_update_portforwardings env rid op)).
Proof.
  apply keeps_for_each. intros p. unfold _update_portforwardings.
  destruct (rule_in p); [|apply keeps_raise].
  destruct op; [| |apply keeps_raise];
    apply keeps_call, registered_with_blind.
Qed.

Lemma process_router_portforwardings_keeps_cached gw :
  keeps J (process_router_portforwardings env rid gw).
Proof.
  intros s Hs. pose proof Hs as (ri & Hri & Hdoc & Hcache).
  change (post (process_router_portforwardings env rid gw) s (λ _ s', J s')).
  unfold process_router_portforwardings.
  apply post_bind. unfold post at 1.
  rewrite (get_ri_found rid s ri Hri). cbn [fst snd].
  destruct (portforwardings (ri_router ri)) as [pfs|]; [|done].
  assert (Htail : ∀ l, keeps J (let* ri' := get_ri rid in
                                put_ri rid (set_ri_portforwardings l ri'))).
  { intros l. by apply update_entry_keeps. }
  apply post_bind.
  eapply post_mono with (Q := λ _ s', J s').
  2:{ intros [[]|e] s2 Hs2; [|done].
      by apply (keeps_call J env _ registered_with_blind). }
  destruct gw as [g|].
  - destruct (populate g pfs) as [new|e0]; [|done].
    apply post_bind. unfold post at 1. rewrite put_ri_eq. cbn [fst snd].
    set (s1 := with_router_info _ s).
    assert (Hs1 : J s1).
    { eexists. split; [apply lookup_insert_eq|]. by rewrite <- Hdoc, <- Hcache. }
    rewrite (surjective_pairing (diff_list_of_dict _ _)).
    apply (keeps_bind J); [apply update_loop_keeps|intros _|exact Hs1].
    apply (keeps_bind J); [apply update_loop_keeps|intros _]. apply Htail.
  - apply (keeps_bind J); [apply update_loop_keeps|intros _|exact Hs].
    apply Htail.
Qed.

End Cache.

(** X16.  [process_router] for a registered router leaves it registered
    and never changes the gateway port, the SNAT interfaces and the
    SNAT switch of its document; the runtime object's cache of these
    three ([ex_gw_port], [snat_ports], [enable_snat]) is the document's
    values when [process_router] returns, and is unchanged when it
    raises. *)
Theorem process_router_caches_on_success env rid s ri :
  router_info s !! rid = Some ri →
  ∃ ri', router_info (process_router env rid s).2 !! rid = Some ri'
    ∧ cached_fields (ri_router ri') = cached_fields (ri_router ri)
    ∧ cache_of ri'
      = match (process_router env rid s).1 with
        | Ok _ => cached_fields (ri_router ri)
        | Raise _ => cache_of ri
        end.
Proof.
  intros Hri.
  set (doc := cached_fields (ri_router ri)).
  set (J := registered_with rid doc (cache_of ri)).
  set (Q := λ (o : Outcome unit) s',
         ∃ ri', router_info s' !! rid = Some ri'
                ∧ cached_fields (ri_router ri') = doc
                ∧ cache_of ri' = match o with
                                 | Ok _ => doc
                                 | Raise _ => cache_of ri
                                 end).
  change (post (process_router env rid) s Q).
  assert (Hs : J s) by (by exists ri).
  assert (Hraise : ∀ e s', J s' → Q (Raise e) s') by (intros e s' H; exact H).
  assert (Hcall : ∀ c, keeps J (call env c)).
  { intros c. apply keeps_call, registered_with_blind. }
  unfold process_router.
  apply post_bind. unfold post at 1.
  rewrite (get_ri_found rid s ri Hri). cbn [fst snd].
  apply post_bind.
  eapply post_mono with (Q := λ o s', J s' ∧ o = Ok tt).
  { unfold post. case_bool_decide; cbn [when]; [|done].
    rewrite put_ri_eq. split; [|done]. eexists.
    split; [apply lookup_insert_eq|done]. }
  intros o s1 [Hs1 ->]. clear Hs Hri.
  pose proof Hs1 as (ri1 & Hri1 & Hdoc1 & Hcache1).
  apply post_bind. unfold post at 1.
  rewrite (get_ri_found rid s1 ri1 Hri1). cbn [fst snd].
  apply (post_seq J); [|done|done|intros _ s2 Hs2].
  { destruct (gw_port (ri_router ri1)); [|apply keeps_ret].
    apply keeps_when, keeps_bind; [apply Hcall | intros _; apply Hcall]. }
  apply (post_seq J); [apply Hcall|done|done|intros _ s3 Hs3].
  apply (post_seq J); [apply Hcall|done|done|intros _ s4 Hs4].
  apply (post_seq J); [apply Hcall|done|done|intros _ s5 Hs5].
  apply (post_seq J);
    [apply process_router_portforwardings_keeps_cached|done|done
    |intros _ s6 Hs6].
  apply post_bind. unfold post at 1, get_agent. cbn [fst snd].
  apply (post_seq J); [apply keeps_when, Hcall|done|done|intros _ s7 Hs7].
  destruct Hs7 as (ri7 & Hri7 & Hdoc7 & Hcache7).
  unfold post. rewrite (bind_ok _ _ _ _ _ (get_ri_found rid s7 ri7 Hri7)).
  rewrite put_ri_eq. eexists. split; [apply lookup_insert_eq|].
  split; [exact Hdoc7|].
  unfold doc, cached_fields in *. cbn.
  injection Hdoc7 as _ <- <-. by injection Hdoc1 as <- _ _.
Qed.

Lemma process_router_caches_on_success_witness :
  router_info Sample.agent1 !! "r1"
  = Some (Sample.ri_with Sample.r1 [Sample.old_pf])
  ∧ ∃ ri', router_info (process_router Sample.quiet_env "r1"
                          Sample.agent1).2 !! "r1" = Some ri'
      ∧ cached_fields (ri_router ri') = cached_fields Sample.r1
      ∧ cache_of ri' = cached_fields Sample.r1.
Proof.
  split; [reflexivity|].
  exact (process_router_caches_on_success Sample.quiet_env "r1"
           Sample.agent1 _ eq_refl).
Defined.

Lemma too_many_dispatch {A} ty (a b : A) :
  match ty with "TooManyExternalNetworks" => a | _ => b end
  = if String.eqb ty "TooManyExternalNetworks" then a else b.
Proof.
  destruct (String.eqb_spec ty "TooManyExternalNetworks") as [->|Hne];
    [done|].
  repeat (match goal with
          | |- context [match ?x with _ => _ end] => is_var x; destruct x
          end; try done).
Qed.

(** X17.  [_fetch_external_net_id] raises only after asking the
    controller, and that is then its single call, the cached id being
    left alone: a RemoteError of type TooManyExternalNetworks becomes a
    plain Exception, every other fault of the call is raised as it
    is. *)
Theorem external_net_id_failure env force s e :
  (_fetch_external_net_id env force s).1 = Raise e →
  (_fetch_external_net_id env force s).2
  = add_calls [get_external_network_id] s
  ∧ ∃ ft, env_raises env (trace s) get_external_network_id = Some ft
          ∧ match ft with
            | RemoteError ty =>
                if String.eqb ty "TooManyExternalNetworks"
                then ∃ msg, e = PlainException msg
                else e = Collab ft
            | _ => e = Collab ft
            end.
Proof.
  destruct (_fetch_external_net_id env force s) as [o s'] eqn:Hrun.
  cbn [fst snd]. intros ->. revert Hrun.
  unfold _fetch_external_net_id, bind at 1, get_agent at 1.
  destruct (truthy (gateway_external_network_id (conf s))); [done|].
  destruct (truthy (external_network_bridge (conf s))); [|done].
  cbn [negb].
  destruct (negb force && truthy_opt (target_ex_net_id s)); [done|].
  unfold try_except, bind at 1, call_ret at 1, bind at 1,
    get_agent at 1, bind at 1, call at 1.
  destruct (env_raises env (trace s) get_external_network_id) as [ft|];
    [|done].
  destruct ft as [|ty| |msg]; cbn [is_RemoteError];
    try by (intros [= <- <-]; (split; [done|]); eexists; split; done).
  rewrite too_many_dispatch.
  destruct (String.eqb ty "TooManyExternalNetworks") eqn:Hty;
    intros [= <- <-]; (split; [done|]); exists (RemoteError ty);
    (split; [done|]); cbv beta iota; rewrite Hty; eauto.
Qed.

Lemma external_net_id_failure_witness :
  ∃ msg,
    (_fetch_external_net_id Scenario.too_many_env false
       Sample.agent_bridge).1 = Raise (PlainException msg)
    ∧ (_fetch_external_net_id Scenario.too_many_env false
         Sample.agent_bridge).2
      = add_calls [get_external_network_id] Sample.agent_bridge.
Proof.
  eexists. split; [reflexivity|].
  exact (proj1 (external_net_id_failure Scenario.too_many_env false
                  Sample.agent_bridge _ eq_refl)).
Defined.

(** X18.  A configuration that passes [_check_config_params] has an
    interface driver, and when it does not use namespaces the full
    fetch asks for exactly one router, the configured [router_id],
    which is not empty. *)
Theorem checked_config_names_the_router interface_driver c :
  _check_config_params interface_driver c = ConfigOk →
  truthy_opt interface_driver = true
  ∧ match sync_router_ids c with
    | None => use_namespaces c = true
    | Some ids => use_namespaces c = false
                  ∧ ids = [router_id c] ∧ router_id c ≠ ""
    end.
Proof.
  unfold _check_config_params, sync_router_ids.
  destruct (truthy_opt interface_driver); [|done].
  destruct (use_namespaces c); [done|].
  unfold truthy. destruct (String.eqb_spec (router_id c) ""); [done|].
  done.
Qed.

Lemma checked_config_names_the_router_witness :
  _check_config_params (Some "openvswitch") Scenario.single_router_cfg
  = ConfigOk
  ∧ use_namespaces Scenario.single_router_cfg = false
  ∧ ["r1"] = [router_id Scenario.single_router_cfg]
  ∧ router_id Scenario.single_router_cfg ≠ "".
Proof.
  split; [reflexivity|].
  exact (proj2 (checked_config_names_the_router (Some "openvswitch")
                  Scenario.single_router_cfg eq_refl)).
Defined.

(** X19.  [agent_updated] sets the full-sync flag and nothing else,
    and the next periodic task, once its services sync has returned,
    does not return early: it goes on to enter the namespaces
    manager. *)
Theorem agent_updated_forces_full_sync env s :
  env_raises env (trace s) process_services_sync = None →
  agent_updated s = (Ok tt, with_fullsync true s)
  ∧ ∃ cs, calls_since s (periodic_sync_routers_task env (agent_updated s).2).2
          = [process_services_sync; ns_enter] ++ cs.
Proof.
  intros Hpss. split; [done|].
  change (agent_updated s).2 with (with_fullsync true s).
  destruct (periodic_sync_routers_task env (with_fullsync true s))
    as [o s'] eqn:Hrun.
  cbn [snd]. revert Hrun.
  unfold periodic_sync_routers_task, bind at 1, call at 1.
  change (trace (with_fullsync true s)) with (trace s). rewrite Hpss.
  unfold bind at 1, get_agent at 1. rewrite fullsync_add_calls.
  cbn [fullsync with_fullsync negb].
  unfold try_except, with_namespaces_manager, bind at 1, call at 1.
  assert (Hcs : ∀ cs, calls_since s
            (add_calls cs (add_calls [ns_enter]
               (add_calls [process_services_sync] (with_fullsync true s))))
            = [process_services_sync; ns_enter] ++ cs).
  { intros cs. unfold calls_since. cbn. rewrite <- !app_assoc.
    by rewrite drop_app_length. }
  destruct (env_raises env _ ns_enter) as [ft|].
  { intros [= <- <-]. exists []. by rewrite <- (Hcs []), add_calls_nil. }
  set (s1 := add_calls [ns_enter] _).
  assert (Hs2 : ∃ cs, trace (fetch_and_sync_all_routers env s1).2
                      = trace s1 ++ cs).
  { apply (fetch_and_sync_all_routers_keeps env
             (λ s', ∃ cs, trace s' = trace s1 ++ cs)).
    - intros cs' s0 [cs Hcs0]. exists (cs ++ cs').
      by rewrite trace_add_calls, Hcs0, <- app_assoc.
    - by intros s0 [cs Hcs0]; exists cs.
    - exists []. by rewrite app_nil_r. }
  destruct (fetch_and_sync_all_routers env s1) as [o2 s2].
  cbn [snd] in Hs2. destruct Hs2 as [cs2 Hs2].
  assert (Hend : ∀ b s3, trace s3 = trace s2 ++ [ns_exit b] →
            ∃ cs, calls_since s s3 = [process_services_sync; ns_enter] ++ cs).
  { intros b s3 Hs3. exists (cs2 ++ [ns_exit b]).
    unfold calls_since. rewrite Hs3, Hs2. unfold s1. cbn.
    rewrite <- !app_assoc. by rewrite drop_app_length. }
  destruct o2 as [[]|e].
  - unfold call at 1.
    destruct (env_raises env (trace s2) (ns_exit false)) as [ft|];
      intros [= <- <-]; by apply (Hend false).
  - unfold bind at 1, call at 1.
    destruct (env_raises env (trace s2) (ns_exit true)) as [ft|].
    + intros [= <- <-]; by apply (Hend true).
    + unfold raise. destruct (is_AbortSyncRouters e);
        intros [= <- <-]; by apply (Hend true).
Qed.

Lemma agent_updated_forces_full_sync_witness :
  env_raises Sample.quiet_env (trace Sample.agent1) process_services_sync
  = None
  ∧ ∃ cs, calls_since Sample.agent1
            (periodic_sync_routers_task Sample.quiet_env
               (agent_updated Sample.agent1).2).2
          = [process_services_sync; ns_enter] ++ cs.
Proof.
  split; [reflexivity|].
  exact (proj2 (agent_updated_forces_full_sync Sample.quiet_env Sample.agent1
                  eq_refl)).
Defined.
